(** * Reolink camera backend: session tokens and the vendor session

    A shallow embedding of [app.py]: the session authority
    ([generate_token], [verify_token], [token_required]) and the vendor
    client [ReonlinkCloudAPI] ([authenticate] and the four camera
    operations), with the properties of the specification proved about
    them.

    Conventions of the embedding.
    - Python values that come from JSON are values of [json]; [None] is
      [JNull]. JSON numbers are integers (floats are not represented).
    - An exception is a value of [exception]; code that can raise returns
      a [result]. An [except C] clause is a match on the constructors
      that are subclasses of [C].
    - Clock readings ([datetime.now()], [datetime.utcnow()]) are explicit
      arguments. [generate_token], [verify_token] and [token_required]
      take them in whole seconds since the epoch, the resolution at
      which the JWT library writes and compares the [exp] and [iat]
      claims; [generate_token_at], [verify_token_at] and
      [token_required_at] take the readings of the clock itself, in
      microseconds, and truncate them where the library does.
    - What [print] writes is not part of the model.
    - The third-party libraries are not part of the repository: the JWT
      codec is an interface ([JwtCodec]) and the vendor is an oracle from
      the requests sent so far and the current request to an outcome. *)

From stdpp Require Import base strings list gmap.
From Stdlib Require Import Ascii String ZArith Lia.

Local Open Scope string_scope.
Local Open Scope Z_scope.

(** ** Python values and exceptions *)

#[local] Unset Elimination Schemes.
Inductive json :=
| JNull
| JBool (b : bool)
| JInt (n : Z)
| JStr (s : string)
| JArr (items : list json)
| JObj (fields : list (string * json)).
#[local] Set Elimination Schemes.

(** [requests.exceptions.RequestException] and its subclasses. *)
Inductive request_failure :=
| Timeout
| ConnectionError
| HTTPError (status : Z)
| InvalidJSONError.

(** [jwt.InvalidTokenError] and its subclasses. *)
Inductive jwt_failure :=
| DecodeError
| InvalidAlgorithmError
| InvalidSignatureError
| ImmatureSignatureError
| ExpiredSignatureError.

(** The exceptions the modelled code can meet; [msg] is [str(e)]. *)
Inductive exception :=
| RequestException (kind : request_failure) (msg : string)
| InvalidTokenError (kind : jwt_failure)
| KeyError (key : string)
| AttributeError
| TypeError
| IndexError.

Inductive result (A : Type) :=
| Return (a : A)
| Raise (e : exception).
Arguments Return {A} a.
Arguments Raise {A} e.

(** Truth value of a Python object, as [not x] and [if x] use it. *)
Definition truthy (v : json) : bool :=
  match v with
  | JNull => false
  | JBool b => b
  | JInt n => negb (n =? 0)
  | JStr s => negb (String.eqb s "")
  | JArr l => match l with [] => false | _ => true end
  | JObj d => match d with [] => false | _ => true end
  end.

(** [v == n] for an integer literal [n]: [True == 1] and [False == 0]
    hold in Python, no other non-number equals a number. *)
Definition eq_int (v : json) (n : Z) : bool :=
  match v with
  | JInt m => m =? n
  | JBool b => (if b then 1 else 0) =? n
  | _ => false
  end.

Fixpoint assoc (k : string) (d : list (string * json)) : option json :=
  match d with
  | [] => None
  | (k', v) :: d' => if String.eqb k k' then Some v else assoc k d'
  end.

(** The value under [k] in the dict [d], [default] when there is none. *)
Definition get_or (d : list (string * json)) (k : string) (default : json)
    : json :=
  match assoc k d with Some x => x | None => default end.

(** [v.get(k, default)]: only a dict has the method. *)
Definition dict_get (v : json) (k : string) (default : json) : result json :=
  match v with
  | JObj d => Return (get_or d k default)
  | _ => Raise AttributeError
  end.

(** [v[k]] for a string key [k]. *)
Definition getitem (v : json) (k : string) : result json :=
  match v with
  | JObj d => match assoc k d with Some x => Return x | None => Raise (KeyError k) end
  | _ => Raise TypeError
  end.

(** [s.split(' ')]: cut at every single space; never the empty list. *)
Fixpoint split_space (s : string) : list string :=
  match s with
  | EmptyString => [""]
  | String c rest =>
      if Ascii.eqb c " " then "" :: split_space rest
      else match split_space rest with
           | [] => [String c ""]
           | w :: ws => String c w :: ws
           end
  end.

(** [' ' in s]. *)
Fixpoint contains_space (s : string) : bool :=
  match s with
  | EmptyString => false
  | String c rest => Ascii.eqb c " " || contains_space rest
  end.

Definition hours (n : Z) : Z := n * 3600.

(** A [datetime] is a count of microseconds since the epoch;
    [timedelta(hours=n)] in that unit, and the whole seconds of a
    [datetime], which is what [timegm(d.utctimetuple())] and the
    comparison of a whole-second claim with [timestamp()] keep of it. *)
Definition timedelta_hours (n : Z) : Z := n * 3600 * 1000000.
Definition whole_seconds (d : Z) : Z := d / 1000000.

(** ** The JWT library *)

(** The claims a token of this application carries: the website id
    handed to [generate_token], and the two dates as the library encodes
    them, in seconds. *)
Record claims := Claims {
  claim_user_id : string;
  claim_exp : option Z;
  claim_iat : option Z
}.

(** A compact token taken apart. *)
Record jws := Jws {
  jws_alg : string;
  jws_claims : claims;
  jws_signing_input : string;
  jws_signature : string
}.

(** What the application needs of the codec: a keyed MAC, the compact
    serialisation, and its inverse on serialised tokens. *)
Class JwtCodec := {
  hmac_sha256 : string → string → string;
  signing_input : string → claims → string;
  compact : string → claims → string → string;
  jws_load : string → option jws;
  jws_load_compact : ∀ alg c sig,
    jws_load (compact alg c sig) =
    Some (Jws alg c (signing_input alg c) sig)
}.


(** What a decorated view returns: the decorator's own response (a JSON body
    from [jsonify] and a status), or whatever the wrapped view returns. *)
Inductive reply (R : Type) :=
| Rejected (body : json) (status : Z)
| Passed (r : R).
Arguments Rejected {R} body status.
Arguments Passed {R} r.

Definition unauthorized {R} (message : string) : reply R :=
  Rejected (JObj [("success", JBool false); ("message", JStr message)]) 401.

Section SessionAuthority.

Context {codec : JwtCodec}.

(** [SECRET_KEY], read from the environment. *)
Variable SECRET_KEY : string.

(** [jwt.encode(payload, key, algorithm='HS256')]. *)
Definition jwt_encode (payload : claims) (key : string) : string :=
  compact "HS256" payload (hmac_sha256 key (signing_input "HS256" payload)).

(** [jwt.decode(token, key, algorithms=['HS256'])] at clock reading
    [now]: the segments are taken apart, then the algorithm, the
    signature, and the claims [iat] and [exp] are checked, each failure
    raising its subclass of [InvalidTokenError]. *)
Definition jwt_decode (token key : string) (now : Z) : result claims :=
  match jws_load token with
  | None => Raise (InvalidTokenError DecodeError)
  | Some j =>
      if negb (String.eqb (jws_alg j) "HS256") then
        Raise (InvalidTokenError InvalidAlgorithmError)
      else if negb (String.eqb (jws_signature j)
                      (hmac_sha256 key (jws_signing_input j))) then
        Raise (InvalidTokenError InvalidSignatureError)
      else if match claim_iat (jws_claims j) with
              | Some i => now <? i
              | None => false
              end then
        Raise (InvalidTokenError ImmatureSignatureError)
      else if match claim_exp (jws_claims j) with
              | Some e => e <=? now
              | None => false
              end then
        Raise (InvalidTokenError ExpiredSignatureError)
      else Return (jws_claims j)
  end.

(** [generate_token]: the two [datetime.utcnow()] readings are
    [utcnow_exp] (first, for ['exp']) and [utcnow_iat] (second, for
    ['iat']); the result is the token and the registry after the call. *)
Definition generate_token (utcnow_exp utcnow_iat : Z) (user_id : string)
    (valid_tokens : gset string) : string * gset string :=
  let payload :=
    {| claim_user_id := user_id;
       claim_exp := Some (utcnow_exp + hours 24);
       claim_iat := Some utcnow_iat |} in
  let token := jwt_encode payload SECRET_KEY in
  (token, {[ token ]} ∪ valid_tokens).

(** [verify_token] against the registry, at clock reading [now]. *)
Definition verify_token (valid_tokens : gset string) (now : Z)
    (token : string) : result bool :=
  match
    (if bool_decide (token ∉ valid_tokens) then Return false
     else match jwt_decode token SECRET_KEY now with
          | Return _ => Return true
          | Raise e => Raise e
          end)
  with
  | Return b => Return b
  | Raise (InvalidTokenError ExpiredSignatureError) => Return false
  | Raise (InvalidTokenError _) => Return false
  | Raise e => Raise e
  end.

(** [token_required(f)], the function [decorated]: [authorization] is
    [request.headers.get('Authorization')] and [args] what the view is
    called with. [not token] holds of [None] and of the empty string. *)
Definition token_required {A R : Type} (f : A → R)
    (valid_tokens : gset string) (now : Z)
    (authorization : option string) (args : A) : result (reply R) :=
  match authorization with
  | None => Return (unauthorized "No token provided")
  | Some token =>
      if String.eqb token "" then
        Return (unauthorized "No token provided")
      else
        match
          (match split_space token !! 1%nat with
           | None => Raise IndexError
           | Some token =>
               match verify_token valid_tokens now token with
               | Return ok =>
                   if negb ok then Return (Some (unauthorized "Invalid token"))
                   else Return None
               | Raise e => Raise e
               end
           end)
        with
        | Return (Some response) => Return response
        | Return None => Return (Passed (f args))
        | Raise IndexError => Return (unauthorized "Invalid token format")
        | Raise e => Raise e
        end
  end.

(** [generate_token] with the two [datetime.utcnow()] readings at the
    resolution of the clock: [jwt.encode] writes the dates ['exp'] and
    ['iat'] of the payload as whole seconds. *)
Definition generate_token_at (utcnow_exp utcnow_iat : Z) (user_id : string)
    (valid_tokens : gset string) : string * gset string :=
  let exp := utcnow_exp + timedelta_hours 24 in
  let iat := utcnow_iat in
  let payload :=
    {| claim_user_id := user_id;
       claim_exp := Some (whole_seconds exp);
       claim_iat := Some (whole_seconds iat) |} in
  let token := jwt_encode payload SECRET_KEY in
  (token, {[ token ]} ∪ valid_tokens).

(** [verify_token] when the clock reads [now] microseconds: [jwt.decode]
    compares the whole-second claims with the clock, which is to compare
    them with its whole seconds. *)
Definition verify_token_at (valid_tokens : gset string) (now : Z)
    (token : string) : result bool :=
  verify_token valid_tokens (whole_seconds now) token.

(** The decorated view when the clock reads [now] microseconds. *)
Definition token_required_at {A R : Type} (f : A → R)
    (valid_tokens : gset string) (now : Z)
    (authorization : option string) (args : A) : result (reply R) :=
  token_required f valid_tokens (whole_seconds now) authorization args.

(** *** Vocabulary of the properties *)

(** The token carries a signature that verifies under [SECRET_KEY]. *)
Definition signature_verifies (token : string) : Prop :=
  ∃ j, jws_load token = Some j ∧
       jws_alg j = "HS256" ∧
       jws_signature j = hmac_sha256 SECRET_KEY (jws_signing_input j).

(** The token carries an expiry, and it is later than [now]. *)
Definition expiry_in_future (now : Z) (token : string) : Prop :=
  ∃ j e, jws_load token = Some j ∧
         claim_exp (jws_claims j) = Some e ∧ now < e.

(** The token carries an expiry, and it is not later than [now]. *)
Definition expired (now : Z) (token : string) : Prop :=
  ∃ j e, jws_load token = Some j ∧
         claim_exp (jws_claims j) = Some e ∧ e ≤ now.

(** Registries that [generate_token] builds from the empty one, with
    every issue no later than [now]. *)
Inductive issued_by (now : Z) : gset string → Prop :=
| issued_nothing : issued_by now ∅
| issued_more utcnow_exp utcnow_iat user_id valid_tokens :
    issued_by now valid_tokens →
    utcnow_iat ≤ now →
    issued_by now
      (generate_token utcnow_exp utcnow_iat user_id valid_tokens).2.

End SessionAuthority.

(** ** The vendor client *)

Inductive http_method := GET | POST.

(** A call of [requests.get] or [requests.post]: [req_json] is the
    [json=] argument, [req_headers] the [headers=] argument. *)
Record http_request := HttpRequest {
  req_method : http_method;
  req_url : string;
  req_json : option json;
  req_headers : list (string * string);
  req_timeout : Z
}.

(** What the three library calls of every exchange ([requests.get] or
    [requests.post], [response.raise_for_status()], [response.json()])
    give together: one of them raises a [RequestException], or the last
    one returns the decoded body. An exception of another class out of
    the library is not among the outcomes; what is proved of an exchange
    is proved for these two. *)
Inductive http_outcome :=
| Failed (kind : request_failure) (msg : string)
| Replied (data : json).

(** The instance of [ReonlinkCloudAPI]. *)
Record ReonlinkCloudAPI := Api {
  email : string;
  password : string;
  access_token : json;
  refresh_token : json;
  token_expiration : option Z
}.

(** The instance together with the requests it has sent, oldest first. *)
Record world := World {
  self : ReonlinkCloudAPI;
  sent : list http_request
}.

(** Computations that read and write the instance, talk to the vendor
    and may raise; the state survives an exception. *)
Definition M (A : Type) : Type := world → result A * world.

Definition ret {A} (a : A) : M A := λ w, (Return a, w).
Definition raise {A} (e : exception) : M A := λ w, (Raise e, w).
Definition bind {A B} (m : M A) (k : A → M B) : M B :=
  λ w, match m w with
       | (Return a, w') => k a w'
       | (Raise e, w') => (Raise e, w')
       end.
Definition lift {A} (r : result A) : M A := λ w, (r, w).

(** [try: body except RequestException as e: handler(str(e))]. *)
Definition try_except_RequestException {A} (body : M A)
    (handler : string → M A) : M A :=
  λ w, match body w with
       | (Raise (RequestException _ msg), w') => handler msg w'
       | other => other
       end.

Declare Scope api_scope.
Delimit Scope api_scope with api.
Notation "'let*' x ':=' m 'in' k" := (bind m (λ x, k))
  (at level 10, x name, m at level 100, k at level 200) : api_scope.
Notation "'do*' m 'in' k" := (bind m (λ _, k))
  (at level 10, m at level 100, k at level 200) : api_scope.

Definition get_self : M ReonlinkCloudAPI := λ w, (Return (self w), w).
Definition set_access_token (v : json) : M unit :=
  λ w, (Return tt,
        World (Api (email (self w)) (password (self w)) v
                 (refresh_token (self w)) (token_expiration (self w)))
          (sent w)).
Definition set_refresh_token (v : json) : M unit :=
  λ w, (Return tt,
        World (Api (email (self w)) (password (self w))
                 (access_token (self w)) v (token_expiration (self w)))
          (sent w)).
Definition set_token_expiration (t : option Z) : M unit :=
  λ w, (Return tt,
        World (Api (email (self w)) (password (self w))
                 (access_token (self w)) (refresh_token (self w)) t)
          (sent w)).

Definition REOLINK_API_BASE : string := "https://api.reolink.com/v1".

Section Upstream.

(** The vendor: its answer to a request may depend on the requests
    sent before it. *)
Variable vendor : list http_request → http_request → http_outcome.

(** [str(v)] for the lists, dicts and numbers an f-string may be handed;
    the other cases are written out in [py_str]. *)
Variable str_other : json → string.

Definition py_str (v : json) : string :=
  match v with
  | JNull => "None"
  | JBool true => "True"
  | JBool false => "False"
  | JStr s => s
  | _ => str_other v
  end.

(** One exchange with the vendor; the request is recorded whatever the
    outcome. *)
Definition exchange (req : http_request) : M json :=
  λ w, let w' := World (self w) (sent w ++ [req]) in
       match vendor (sent w) req with
       | Failed kind msg => (Raise (RequestException kind msg), w')
       | Replied data => (Return data, w')
       end.

Definition requests_post (url : string) (body : option json)
    (headers : list (string * string)) : M json :=
  exchange (HttpRequest POST url body headers 10).

Definition requests_get (url : string)
    (headers : list (string * string)) : M json :=
  exchange (HttpRequest GET url None headers 10).

Local Open Scope api_scope.

(** [authenticate], at [datetime.now()] reading [now]. *)
Definition authenticate (now : Z) : M bool :=
  try_except_RequestException
    (let* me := get_self in
     let url := REOLINK_API_BASE +:+ "/login" in
     let payload := JObj [("email", JStr (email me));
                          ("password", JStr (password me))] in
     let* data := requests_post url (Some payload) [] in
     let* code := lift (dict_get data "code" JNull) in
     if eq_int code 0 then
       let* d := lift (getitem data "data") in
       let* a := lift (getitem d "access_token") in
       do* set_access_token a in
       let* d := lift (getitem data "data") in
       let* r := lift (getitem d "refresh_token") in
       do* set_refresh_token r in
       do* set_token_expiration (Some (now + hours 23)) in
       ret true
     else
       ret false)
    (λ _, ret false).

(** [__init__], for a process that has sent [sent_before] so far: the
    fields are set, then [self.authenticate()] is called and its answer
    dropped. *)
Definition init (email password : string) (now : Z)
    (sent_before : list http_request) : result unit * world :=
  (do* authenticate now in ret tt)
    (World (Api email password JNull JNull None) sent_before).



(** The guard that opens every camera operation:
    [if not self.access_token: self.authenticate()]. *)
Definition authenticate_if_no_token (now : Z) : M unit :=
  let* me := get_self in
  if negb (truthy (access_token me)) then
    (let* _ := authenticate now in ret tt)
  else ret tt.

(** [{'Authorization': f'Bearer {self.access_token}'}]. *)
Definition bearer_headers (me : ReonlinkCloudAPI) : list (string * string) :=
  [("Authorization", "Bearer " +:+ py_str (access_token me))].

(** [get_camera_status]. *)
Definition get_camera_status (now : Z) (camera_uid : string) : M json :=
  try_except_RequestException
    (do* authenticate_if_no_token now in
     let* me := get_self in
     let headers := bearer_headers me in
     let url := REOLINK_API_BASE +:+ "/camera/" +:+ camera_uid in
     let* data := requests_get url headers in
     let* code := lift (dict_get data "code" JNull) in
     if eq_int code 0 then
       let* camera_data := lift (getitem data "data") in
       let* st := lift (dict_get camera_data "status" JNull) in
       let* name := lift (dict_get camera_data "name" JNull) in
       let* uid := lift (dict_get camera_data "uid" JNull) in
       ret (JObj [("status", JStr (if eq_int st 1 then "Online" else "Offline"));
                  ("name", name);
                  ("uid", uid);
                  ("pan", JInt 0);
                  ("tilt", JInt 0);
                  ("zoom", JInt 1)])
     else
       let* msg := lift (dict_get data "msg" JNull) in
       ret (JObj [("error", msg)]))
    (λ e, ret (JObj [("error", JStr e)])).

(** [ptz_control]. *)
Definition ptz_control (now : Z) (camera_uid direction : string)
    (value : json) : M json :=
  try_except_RequestException
    (do* authenticate_if_no_token now in
     let* me := get_self in
     let headers := bearer_headers me in
     let url := REOLINK_API_BASE +:+ "/camera/" +:+ camera_uid +:+ "/ptz" in
     let payload := JObj [(direction, value)] in
     let* data := requests_post url (Some payload) headers in
     let* code := lift (dict_get data "code" JNull) in
     if eq_int code 0 then
       ret (JObj [("success", JBool true);
                  ("message", JStr (direction +:+ " command sent"))])
     else
       let* msg := lift (dict_get data "msg" JNull) in
       ret (JObj [("success", JBool false); ("error", msg)]))
    (λ e, ret (JObj [("success", JBool false); ("error", JStr e)])).

(** [recall_preset]. *)
Definition recall_preset (now : Z) (camera_uid : string)
    (preset_id : json) : M json :=
  try_except_RequestException
    (do* authenticate_if_no_token now in
     let* me := get_self in
     let headers := bearer_headers me in
     let url := REOLINK_API_BASE +:+ "/camera/" +:+ camera_uid
                +:+ "/preset/" +:+ py_str preset_id in
     let* data := requests_post url None headers in
     let* code := lift (dict_get data "code" JNull) in
     if eq_int code 0 then
       ret (JObj [("success", JBool true); ("message", JStr "Preset recalled")])
     else
       let* msg := lift (dict_get data "msg" JNull) in
       ret (JObj [("success", JBool false); ("error", msg)]))
    (λ e, ret (JObj [("success", JBool false); ("error", JStr e)])).

(** [get_presets]. *)
Definition get_presets (now : Z) (camera_uid : string) : M json :=
  try_except_RequestException
    (do* authenticate_if_no_token now in
     let* me := get_self in
     let headers := bearer_headers me in
     let url := REOLINK_API_BASE +:+ "/camera/" +:+ camera_uid +:+ "/presets" in
     let* data := requests_get url headers in
     let* code := lift (dict_get data "code" JNull) in
     if eq_int code 0 then
       let* d := lift (getitem data "data") in
       let* presets := lift (dict_get d "presets" (JArr [])) in
       ret presets
     else
       ret (JArr []))
    (λ _, ret (JArr [])).

(** *** Vocabulary of the properties *)

(** The request [authenticate] sends. *)
Definition login_request (me : ReonlinkCloudAPI) : http_request :=
  HttpRequest POST "https://api.reolink.com/v1/login"
    (Some (JObj [("email", JStr (email me)); ("password", JStr (password me))]))
    [] 10.

(** The vendor's [code] field is present and equal to 0. *)
Definition code_zero (data : json) : bool :=
  match dict_get data "code" JNull with
  | Return code => eq_int code 0
  | Raise _ => false
  end.

(** The login exchange keeps to the wire format
    [{code, data: {access_token, refresh_token}}]: a reply is an object,
    and one with code 0 carries both tokens. *)
Definition login_wire_format (out : http_outcome) : bool :=
  match out with
  | Failed _ _ => true
  | Replied (JObj fields) =>
      if code_zero (JObj fields) then
        match assoc "data" fields with
        | Some (JObj d) =>
            match assoc "access_token" d, assoc "refresh_token" d with
            | Some _, Some _ => true
            | _, _ => false
            end
        | _ => false
        end
      else true
  | Replied _ => false
  end.

Definition logged (w : world) (req : http_request) : world :=
  World (self w) (sent w ++ [req]).

(** The vendor keeps to the login wire format whenever the operation
    started in [w] has to log in. *)
Definition login_well_formed (w : world) : bool :=
  truthy (access_token (self w)) ||
  login_wire_format (vendor (sent w) (login_request (self w))).

(** The requests of the four camera operations. *)
Definition status_request (camera_uid : string) (me : ReonlinkCloudAPI)
    : http_request :=
  HttpRequest GET ("https://api.reolink.com/v1" +:+ "/camera/" +:+ camera_uid)
    None (bearer_headers me) 10.

Definition ptz_request (camera_uid direction : string) (value : json)
    (me : ReonlinkCloudAPI) : http_request :=
  HttpRequest POST
    ("https://api.reolink.com/v1" +:+ "/camera/" +:+ camera_uid +:+ "/ptz")
    (Some (JObj [(direction, value)])) (bearer_headers me) 10.

Definition preset_request (camera_uid : string) (preset_id : json)
    (me : ReonlinkCloudAPI) : http_request :=
  HttpRequest POST
    ("https://api.reolink.com/v1" +:+ "/camera/" +:+ camera_uid
     +:+ "/preset/" +:+ py_str preset_id)
    None (bearer_headers me) 10.

Definition presets_request (camera_uid : string) (me : ReonlinkCloudAPI)
    : http_request :=
  HttpRequest GET
    ("https://api.reolink.com/v1" +:+ "/camera/" +:+ camera_uid +:+ "/presets")
    None (bearer_headers me) 10.

End Upstream.

(** ** A reference codec

    A small codec that implements [JwtCodec], to run the model on
    concrete tokens. Its tag is a stand-in for HMAC-SHA256 and has no
    cryptographic strength; nothing proved below relies on one. *)

Module ReferenceCodec.

Fixpoint enc_pos (p : positive) : string :=
  match p with
  | xH => "."
  | xO q => String "0" (enc_pos q)
  | xI q => String "1" (enc_pos q)
  end.

Fixpoint dec_pos (s : string) : option (positive * string) :=
  match s with
  | EmptyString => None
  | String c r =>
      if Ascii.eqb c "." then Some (xH, r)
      else if Ascii.eqb c "0" then
        match dec_pos r with Some (q, r') => Some (xO q, r') | None => None end
      else if Ascii.eqb c "1" then
        match dec_pos r with Some (q, r') => Some (xI q, r') | None => None end
      else None
  end.

Definition enc_Z (z : Z) : string :=
  match z with
  | Z0 => "z"
  | Zpos p => String "+" (enc_pos p)
  | Zneg p => String "-" (enc_pos p)
  end.

Definition dec_Z (s : string) : option (Z * string) :=
  match s with
  | EmptyString => None
  | String c r =>
      if Ascii.eqb c "z" then Some (Z0, r)
      else if Ascii.eqb c "+" then
        match dec_pos r with Some (p, r') => Some (Zpos p, r') | None => None end
      else if Ascii.eqb c "-" then
        match dec_pos r with Some (p, r') => Some (Zneg p, r') | None => None end
      else None
  end.

Definition enc_date (d : option Z) : string :=
  match d with
  | None => "n"
  | Some z => String "s" (enc_Z z)
  end.

Definition dec_date (s : string) : option (option Z * string) :=
  match s with
  | EmptyString => None
  | String c r =>
      if Ascii.eqb c "n" then Some (None, r)
      else if Ascii.eqb c "s" then
        match dec_Z r with Some (z, r') => Some (Some z, r') | None => None end
      else None
  end.

(** A string with every character escaped, closed by a dot. *)
Fixpoint enc_str (s : string) : string :=
  match s with
  | EmptyString => "."
  | String c r => String "c" (String c (enc_str r))
  end.

Fixpoint dec_str (s : string) : option (string * string) :=
  match s with
  | EmptyString => None
  | String c r =>
      if Ascii.eqb c "." then Some (EmptyString, r)
      else if Ascii.eqb c "c" then
        match r with
        | EmptyString => None
        | String x r' =>
            match dec_str r' with
            | Some (t, rest) => Some (String x t, rest)
            | None => None
            end
        end
      else None
  end.

Definition ref_signing_input (alg : string) (c : claims) : string :=
  enc_str alg +:+ enc_str (claim_user_id c) +:+
  enc_date (claim_exp c) +:+ enc_date (claim_iat c).

Definition ref_compact (alg : string) (c : claims) (sig : string) : string :=
  ref_signing_input alg c +:+ sig.

Definition ref_load (token : string) : option jws :=
  match dec_str token with
  | None => None
  | Some (alg, r1) =>
      match dec_str r1 with
      | None => None
      | Some (uid, r2) =>
          match dec_date r2 with
          | None => None
          | Some (e, r3) =>
              match dec_date r3 with
              | None => None
              | Some (i, sig) =>
                  let c := Claims uid e i in
                  Some (Jws alg c (ref_signing_input alg c) sig)
              end
          end
      end
  end.

Definition ref_tag (key msg : string) : string := key +:+ "#" +:+ msg.

(** Decoding undoes encoding, whatever follows. *)

Lemma append_cons (x : ascii) (a b : string) :
  String x a +:+ b = String x (a +:+ b).
Proof. reflexivity. Qed.

Lemma append_nil (b : string) : "" +:+ b = b.
Proof. reflexivity. Qed.

Ltac push_append := repeat (rewrite ?append_cons, ?append_nil; simpl).

Lemma append_assoc (a b c : string) : (a +:+ b) +:+ c = a +:+ (b +:+ c).
Proof.
  induction a as [|x a IH]; push_append; [reflexivity | by rewrite IH].
Qed.

Lemma dec_pos_enc (p : positive) (r : string) :
  dec_pos (enc_pos p +:+ r) = Some (p, r).
Proof.
  induction p as [q IH|q IH|]; simpl; push_append; rewrite ?IH; reflexivity.
Qed.

Lemma dec_Z_enc (z : Z) (r : string) : dec_Z (enc_Z z +:+ r) = Some (z, r).
Proof.
  destruct z; simpl; push_append; rewrite ?dec_pos_enc; reflexivity.
Qed.

Lemma dec_date_enc (d : option Z) (r : string) :
  dec_date (enc_date d +:+ r) = Some (d, r).
Proof.
  destruct d; simpl; push_append; rewrite ?dec_Z_enc; reflexivity.
Qed.

Lemma dec_str_enc (s r : string) : dec_str (enc_str s +:+ r) = Some (s, r).
Proof.
  induction s as [|x s IH]; simpl; push_append; rewrite ?IH; reflexivity.
Qed.

Lemma load_compact_roundtrip (alg : string) (c : claims) (sig : string) :
  ref_load (ref_compact alg c sig) =
  Some (Jws alg c (ref_signing_input alg c) sig).
Proof.
  destruct c as [uid e i].
  unfold ref_load, ref_compact, ref_signing_input, claim_user_id,
    claim_exp, claim_iat.
  rewrite !append_assoc, dec_str_enc, dec_str_enc, dec_date_enc, dec_date_enc.
  reflexivity.
Qed.

End ReferenceCodec.

(** The reference codec as an instance of the interface. *)
Definition reference_codec : JwtCodec :=
  {| hmac_sha256 := ReferenceCodec.ref_tag;
     signing_input := ReferenceCodec.ref_signing_input;
     compact := ReferenceCodec.ref_compact;
     jws_load := ReferenceCodec.ref_load;
     jws_load_compact := ReferenceCodec.load_compact_roundtrip |}.

(** ** Concrete runs

    The session authority on the reference codec, with one token issued
    to the website user at clock reading 1000, and the vendor client
    against two scripted vendors. *)

Definition demo_secret : string := "your-secret-key-change-in-production".

Definition demo_issue : string * gset string :=
  generate_token (codec := reference_codec) demo_secret 1000 1000 "860" ∅.

Definition demo_token : string := demo_issue.1.
Definition demo_registry : gset string := demo_issue.2.

(** The same issue on a clock with microseconds, read at 1000.9 s. *)
Definition demo_issue_at : string * gset string :=
  generate_token_at (codec := reference_codec) demo_secret
    1000900000 1000900000 "860" ∅.

(** A view that answers with the arguments it was called with. *)
Definition demo_view (args : string) : json := JObj [("called", JStr args)].

(** A vendor that accepts the login, answers every GET with camera
    data and refuses every other POST. *)
Definition demo_vendor (history : list http_request) (req : http_request)
    : http_outcome :=
  if String.eqb (req_url req) "https://api.reolink.com/v1/login" then
    Replied (JObj [("code", JInt 0);
                   ("data", JObj [("access_token", JStr "A");
                                  ("refresh_token", JStr "R")])])
  else
    match req_method req with
    | GET =>
        Replied (JObj [("code", JInt 0);
                       ("data", JObj [("status", JInt 1);
                                      ("name", JStr "Cam1");
                                      ("uid", JStr "U1");
                                      ("presets", JArr [JStr "door"])])])
    | POST => Replied (JObj [("code", JInt 1); ("msg", JStr "bad")])
    end.

(** A vendor that cannot be reached. *)
Definition demo_vendor_down (history : list http_request)
    (req : http_request) : http_outcome :=
  Failed Timeout "Read timed out.".

(** A vendor whose replies say code 0 and leave the rest out: its
    login names an access token and no refresh token, its other replies
    carry no data. *)
Definition demo_vendor_terse (history : list http_request)
    (req : http_request) : http_outcome :=
  if String.eqb (req_url req) "https://api.reolink.com/v1/login" then
    Replied (JObj [("code", JInt 0);
                   ("data", JObj [("access_token", JStr "A")])])
  else Replied (JObj [("code", JInt 0)]).

(** [str] of numbers and containers; the runs format none. *)
Definition demo_str_other (v : json) : string := "".

(** The instance before its first login. *)
Definition demo_world : world :=
  World (Api "user@example.com" "hunter2" JNull JNull None) [].

(** The instance with a session. *)
Definition demo_world_in : world :=
  World (Api "user@example.com" "hunter2" (JStr "A") (JStr "R") (Some 82800)) [].

(** * Properties *)

(** ** Session authority *)

Section SessionAuthorityFacts.

Context {codec : JwtCodec}.
Variable SECRET_KEY : string.

Lemma jwt_decode_raises token key now e :
  jwt_decode token key now = Raise e → ∃ kind, e = InvalidTokenError kind.
Proof.
  unfold jwt_decode. intros H.
  repeat match type of H with
         | context [match ?x with _ => _ end] => destruct x
         end; inversion H; eauto.
Qed.

Lemma jwt_decode_Return token key now c :
  jwt_decode token key now = Return c ↔
  ∃ j, jws_load token = Some j ∧ c = jws_claims j ∧
       jws_alg j = "HS256" ∧
       jws_signature j = hmac_sha256 key (jws_signing_input j) ∧
       (∀ i, claim_iat (jws_claims j) = Some i → i ≤ now) ∧
       (∀ e, claim_exp (jws_claims j) = Some e → now < e).
Proof.
  unfold jwt_decode. split.
  - intros H.
    destruct (jws_load token) as [j|]; [|discriminate].
    destruct (String.eqb_spec (jws_alg j) "HS256") as [Ha|]; [|discriminate].
    destruct (String.eqb_spec (jws_signature j)
                (hmac_sha256 key (jws_signing_input j))) as [Hs|]; [|discriminate].
    simpl in H.
    assert (Hi : ∀ i, claim_iat (jws_claims j) = Some i → i ≤ now).
    { intros i Hi. rewrite Hi in H.
      destruct (Z.ltb_spec now i); [discriminate | lia]. }
    assert (Hfresh : match claim_iat (jws_claims j) with
                     | Some i => now <? i
                     | None => false
                     end = false).
    { destruct (claim_iat (jws_claims j)) as [i|]; [|reflexivity].
      specialize (Hi i eq_refl). apply Z.ltb_ge. lia. }
    rewrite Hfresh in H.
    assert (He : ∀ e, claim_exp (jws_claims j) = Some e → now < e).
    { intros e He. rewrite He in H.
      destruct (Z.leb_spec e now); [discriminate | lia]. }
    exists j. repeat split; auto.
    destruct (claim_exp (jws_claims j)) as [e|];
      [destruct (e <=? now); [discriminate|] |]; congruence.
  - intros (j & -> & -> & Ha & Hs & Hi & He).
    rewrite Ha, <- Hs, !String.eqb_refl. simpl.
    destruct (claim_iat (jws_claims j)) as [i|].
    + specialize (Hi i eq_refl). destruct (Z.ltb_spec now i); [lia|].
      destruct (claim_exp (jws_claims j)) as [e|]; [|reflexivity].
      specialize (He e eq_refl). destruct (Z.leb_spec e now); [lia|reflexivity].
    + destruct (claim_exp (jws_claims j)) as [e|]; [|reflexivity].
      specialize (He e eq_refl). destruct (Z.leb_spec e now); [lia|reflexivity].
Qed.

Lemma verify_token_total valid_tokens now token :
  ∃ b, verify_token SECRET_KEY valid_tokens now token = Return b.
Proof.
  unfold verify_token. case_bool_decide; [eauto|].
  destruct (jwt_decode token SECRET_KEY now) as [c|e] eqn:Hd; [eauto|].
  apply jwt_decode_raises in Hd as [kind ->]. destruct kind; eauto.
Qed.

Lemma verify_token_true valid_tokens now token :
  verify_token SECRET_KEY valid_tokens now token = Return true ↔
  token ∈ valid_tokens ∧ ∃ c, jwt_decode token SECRET_KEY now = Return c.
Proof.
  unfold verify_token. case_bool_decide as Hin.
  - split; [discriminate | intros [? _]; contradiction].
  - destruct (jwt_decode token SECRET_KEY now) as [c|e] eqn:Hd.
    + split; eauto.
    + split.
      * apply jwt_decode_raises in Hd as [kind ->]. destruct kind; discriminate.
      * intros [_ [c [=]]].
Qed.

Lemma jws_load_encode (payload : claims) (key : string) :
  jws_load (jwt_encode payload key) =
  Some (Jws "HS256" payload (signing_input "HS256" payload)
          (hmac_sha256 key (signing_input "HS256" payload))).
Proof. apply jws_load_compact. Qed.

Lemma issued_by_elem now valid_tokens token :
  issued_by SECRET_KEY now valid_tokens → token ∈ valid_tokens →
  ∃ user_id utcnow_exp utcnow_iat,
    utcnow_iat ≤ now ∧
    token = jwt_encode (Claims user_id (Some (utcnow_exp + hours 24))
                          (Some utcnow_iat)) SECRET_KEY.
Proof.
  induction 1 as [|t1 t2 uid regs Hregs IH Hle]; simpl.
  - intros Hin. by apply not_elem_of_empty in Hin.
  - intros [->%elem_of_singleton | Hin]%elem_of_union; eauto 10.
Qed.

Lemma generate_token_registers utcnow_exp utcnow_iat user_id valid_tokens :
  let issued :=
    generate_token SECRET_KEY utcnow_exp utcnow_iat user_id valid_tokens in
  issued.1 ∈ issued.2 ∧ valid_tokens ⊆ issued.2.
Proof. simpl. set_solver. Qed.

(** C1. [verify_token] returns a boolean for every token and never
    raises. A token missing from the registry, one that cannot be taken
    apart, one whose signature does not verify and one whose expiry has
    passed all give the single answer false. On a registry built by
    [generate_token] the answer is true exactly when the token is in the
    registry, its signature verifies under [SECRET_KEY] and its expiry
    is in the future. *)
Theorem verify_token_spec (valid_tokens : gset string) (now : Z)
    (token : string) :
  (∃ b, verify_token SECRET_KEY valid_tokens now token = Return b) ∧
  (token ∉ valid_tokens →
   verify_token SECRET_KEY valid_tokens now token = Return false) ∧
  (jws_load token = None →
   verify_token SECRET_KEY valid_tokens now token = Return false) ∧
  (¬ signature_verifies SECRET_KEY token →
   verify_token SECRET_KEY valid_tokens now token = Return false) ∧
  (expired now token →
   verify_token SECRET_KEY valid_tokens now token = Return false) ∧
  (issued_by SECRET_KEY now valid_tokens →
   (verify_token SECRET_KEY valid_tokens now token = Return true ↔
    token ∈ valid_tokens ∧ signature_verifies SECRET_KEY token ∧
    expiry_in_future now token)).
Proof.
  assert (Hfalse : ∀ P : Prop,
             (verify_token SECRET_KEY valid_tokens now token = Return true → P) →
             ¬ P →
             verify_token SECRET_KEY valid_tokens now token = Return false).
  { intros P HP HnP.
    destruct (verify_token_total valid_tokens now token) as [[] Hb]; [|done].
    destruct (HnP (HP Hb)). }
  split; [apply verify_token_total|].
  split; [|split; [|split; [|split]]].
  - intros Hn. apply (Hfalse (token ∈ valid_tokens)); [|done].
    by intros [? _]%verify_token_true.
  - intros Hn. apply (Hfalse False); [|tauto].
    intros [_ [c (j & Hj & _)%jwt_decode_Return]]%verify_token_true.
    congruence.
  - apply Hfalse.
    intros [_ [c (j & Hj & _ & Ha & Hs & _)%jwt_decode_Return]]%verify_token_true.
    by exists j.
  - intros (j & e & Hj & He & Hle). apply (Hfalse False); [|tauto].
    intros [_ [c (j' & Hj' & _ & _ & _ & _ & Hexp)%jwt_decode_Return]]%verify_token_true.
    rewrite Hj in Hj'. injection Hj' as <-. specialize (Hexp e He). lia.
  - intros Hreg. rewrite verify_token_true. split.
    + intros [Hin [c (j & Hj & -> & Ha & Hs & Hi & He)%jwt_decode_Return]].
      split; [done|]. split; [by exists j|].
      destruct (issued_by_elem _ _ _ Hreg Hin) as (uid & t1 & t2 & _ & ->).
      rewrite jws_load_encode in Hj. injection Hj as <-. simpl in *.
      eexists _, _. rewrite jws_load_encode. simpl. eauto.
    + intros (Hin & (j & Hj & Ha & Hs) & (j' & e & Hj' & He & Hlt)).
      split; [done|]. exists (jws_claims j). apply jwt_decode_Return.
      exists j. rewrite Hj in Hj'. injection Hj' as <-.
      repeat split; auto.
      * intros i Hi.
        destruct (issued_by_elem _ _ _ Hreg Hin) as (uid & t1 & t2 & Hle & ->).
        rewrite jws_load_encode in Hj. injection Hj as <-. simpl in *.
        congruence.
      * intros e' He'. congruence.
Qed.

End SessionAuthorityFacts.

(** On the concrete registry the issued token is accepted for the three
    reasons of the theorem, and a string that is no token is refused. *)
Lemma verify_token_spec_witness :
  issued_by (codec := reference_codec) demo_secret 1010 demo_registry ∧
  (verify_token (codec := reference_codec) demo_secret demo_registry 1010
     demo_token = Return true ↔
   demo_token ∈ demo_registry ∧
   signature_verifies (codec := reference_codec) demo_secret demo_token ∧
   expiry_in_future (codec := reference_codec) 1010 demo_token) ∧
  verify_token (codec := reference_codec) demo_secret demo_registry 1010
    "garbage" = Return false.
Proof.
  assert (Hreg : issued_by (codec := reference_codec) demo_secret 1010
                   demo_registry).
  { unfold demo_registry, demo_issue.
    apply issued_more; [apply issued_nothing | lia]. }
  split; [exact Hreg|]. split.
  - apply (verify_token_spec (codec := reference_codec) demo_secret
             demo_registry 1010 demo_token), Hreg.
  - destruct (verify_token_spec (codec := reference_codec) demo_secret
                demo_registry 1010 "garbage") as (_ & _ & Hmalformed & _).
    apply Hmalformed. reflexivity.
Defined.

(** ** The decorator *)

Section DecoratorFacts.

Context {codec : JwtCodec}.
Variable SECRET_KEY : string.

Lemma split_space_cons (s : string) : ∃ w ws, split_space s = w :: ws.
Proof.
  induction s as [|c s (w & ws & IH)]; simpl; [eauto|].
  destruct (Ascii.eqb c " "); [eauto|]. rewrite IH. eauto.
Qed.

Lemma split_space_no_space (s : string) :
  contains_space s = false → split_space s = [s].
Proof.
  induction s as [|c s IH]; simpl; [done|].
  destruct (Ascii.eqb c " "); simpl; [done|].
  intros H. by rewrite (IH H).
Qed.

Lemma split_space_app (a b : string) :
  contains_space a = false →
  split_space (a +:+ String " " b) = a :: split_space b.
Proof.
  induction a as [|c a IH]; [done|].
  change (String c a +:+ String " " b) with (String c (a +:+ String " " b)).
  simpl. destruct (Ascii.eqb c " "); simpl; [done|].
  intros H. by rewrite (IH H).
Qed.

Lemma split_space_second (s : string) :
  contains_space s = true ↔ ∃ t, split_space s !! 1%nat = Some t.
Proof.
  induction s as [|c s IH]; simpl.
  - split; [done | intros [t [=]]].
  - destruct (Ascii.eqb c " "); simpl.
    + split; [|done]. intros _.
      destruct (split_space_cons s) as (w & ws & ->). by exists w.
    + rewrite IH. destruct (split_space_cons s) as (w & ws & ->). done.
Qed.

Lemma contains_space_nonempty (s : string) :
  contains_space s = true → s ≠ "".
Proof. by destruct s. Qed.

(** The decorated view on a header that is present and not empty. *)
Lemma token_required_header {A R} (f : A → R) valid_tokens now h args :
  h ≠ "" →
  token_required SECRET_KEY f valid_tokens now (Some h) args =
  match split_space h !! 1%nat with
  | None => Return (unauthorized "Invalid token format")
  | Some t =>
      match verify_token SECRET_KEY valid_tokens now t with
      | Return true => Return (Passed (f args))
      | Return false => Return (unauthorized "Invalid token")
      | Raise e => Raise e
      end
  end.
Proof.
  intros Hne. unfold token_required.
  destruct (String.eqb_spec h "") as [->|_]; [done|]. simpl.
  destruct (split_space h !! 1%nat) as [t|]; [|done].
  destruct (verify_token_total SECRET_KEY valid_tokens now t) as [b Hb].
  destruct (verify_token SECRET_KEY valid_tokens now t) as [[]|e];
    [done | done | discriminate].
Qed.

(** C5, as amended. The decorator answers 401 with one of three messages
    and never calls the view: 'No token provided' when the header is
    missing or empty, 'Invalid token format' when the header is not
    empty and has no space, 'Invalid token' when the second segment of
    the header fails [verify_token]. *)
Theorem token_required_rejections {A R : Type} (f : A → R)
    (valid_tokens : gset string) (now : Z) (args : A) :
  token_required SECRET_KEY f valid_tokens now None args =
    Return (Rejected (JObj [("success", JBool false);
                            ("message", JStr "No token provided")]) 401) ∧
  token_required SECRET_KEY f valid_tokens now (Some "") args =
    Return (Rejected (JObj [("success", JBool false);
                            ("message", JStr "No token provided")]) 401) ∧
  (∀ h, h ≠ "" → contains_space h = false →
     token_required SECRET_KEY f valid_tokens now (Some h) args =
       Return (Rejected (JObj [("success", JBool false);
                               ("message", JStr "Invalid token format")]) 401)) ∧
  (∀ h t, split_space h !! 1%nat = Some t →
     verify_token SECRET_KEY valid_tokens now t = Return false →
     token_required SECRET_KEY f valid_tokens now (Some h) args =
       Return (Rejected (JObj [("success", JBool false);
                               ("message", JStr "Invalid token")]) 401)).
Proof.
  split; [reflexivity|]. split; [reflexivity|]. split.
  - intros h Hne Hsp. rewrite token_required_header by done.
    by rewrite (split_space_no_space h Hsp).
  - intros h t Hseg Hv.
    assert (Hne : h ≠ "").
    { apply contains_space_nonempty, split_space_second. eauto. }
    rewrite token_required_header by done. by rewrite Hseg, Hv.
Qed.

(** C10. The decorator never looks at the scheme word. For a header with at
    least one space the second space-separated segment is the token: the
    view runs when [verify_token] accepts it and the answer is 'Invalid
    token' otherwise. That segment is [t] for a header [scheme t] and for
    a header [scheme t extra], whatever the scheme. 'Invalid token
    format' is the answer only for a header without any space. *)
Theorem token_required_ignores_scheme {A R : Type} (f : A → R)
    (valid_tokens : gset string) (now : Z) (args : A) :
  (∀ h, contains_space h = true →
     ∃ t, split_space h !! 1%nat = Some t ∧
          ((verify_token SECRET_KEY valid_tokens now t = Return true ∧
            token_required SECRET_KEY f valid_tokens now (Some h) args =
              Return (Passed (f args))) ∨
           (verify_token SECRET_KEY valid_tokens now t = Return false ∧
            token_required SECRET_KEY f valid_tokens now (Some h) args =
              Return (unauthorized "Invalid token")))) ∧
  (∀ scheme t, contains_space scheme = false → contains_space t = false →
     split_space (scheme +:+ String " " t) !! 1%nat = Some t ∧
     ∀ extra,
       split_space (scheme +:+ String " " (t +:+ String " " extra)) !! 1%nat
       = Some t) ∧
  (∀ scheme t rest, contains_space scheme = false → contains_space t = false →
     verify_token SECRET_KEY valid_tokens now t = Return true →
     token_required SECRET_KEY f valid_tokens now
       (Some (scheme +:+ String " " t)) args = Return (Passed (f args)) ∧
     token_required SECRET_KEY f valid_tokens now
       (Some (scheme +:+ String " " (t +:+ String " " rest))) args
       = Return (Passed (f args))) ∧
  (∀ h, token_required SECRET_KEY f valid_tokens now (Some h) args =
          Return (unauthorized "Invalid token format") →
        contains_space h = false).
Proof.
  assert (Hseg : ∀ scheme t, contains_space scheme = false →
            contains_space t = false →
            split_space (scheme +:+ String " " t) !! 1%nat = Some t ∧
            ∀ extra,
              split_space (scheme +:+ String " " (t +:+ String " " extra))
                !! 1%nat = Some t).
  { intros scheme t Hs Ht. split.
    - by rewrite split_space_app, (split_space_no_space t Ht).
    - intros extra. by rewrite !split_space_app. }
  assert (Hne : ∀ a b, a +:+ String " " b ≠ "").
  { intros a b. by destruct a. }
  split; [|split; [exact Hseg|split]].
  - intros h Hsp.
    destruct (proj1 (split_space_second h) Hsp) as [t Ht]. exists t.
    split; [done|].
    rewrite token_required_header by by apply contains_space_nonempty.
    rewrite Ht.
    destruct (verify_token_total SECRET_KEY valid_tokens now t) as [[] ->]; auto.
  - intros scheme t rest Hs Ht Hv.
    destruct (Hseg scheme t Hs Ht) as [H1 H2].
    rewrite !token_required_header by apply Hne.
    by rewrite H1, (H2 rest), Hv.
  - intros h H. destruct (contains_space h) eqn:Hsp; [|done].
    destruct (proj1 (split_space_second h) Hsp) as [t Ht].
    rewrite token_required_header in H by by apply contains_space_nonempty.
    rewrite Ht in H.
    destruct (verify_token_total SECRET_KEY valid_tokens now t) as [[] Hb];
      rewrite Hb in H; discriminate.
Qed.

End DecoratorFacts.

(** The empty header has no space, and the decorator answers it with 'No
    token provided', not with 'Invalid token format'. *)
Lemma empty_header_is_no_token :
  contains_space "" = false ∧
  token_required (codec := reference_codec) demo_secret demo_view
    demo_registry 1010 (Some "") "status" =
    Return (unauthorized "No token provided") ∧
  token_required (codec := reference_codec) demo_secret demo_view
    demo_registry 1010 (Some "") "status" ≠
    Return (unauthorized "Invalid token format").
Proof. split; [reflexivity|]. split; [reflexivity|]. discriminate. Qed.

(** A header without a space and a header with an unknown token. *)
Lemma token_required_rejections_witness :
  token_required (codec := reference_codec) demo_secret demo_view
    demo_registry 1010 (Some "Bearer") "status" =
    Return (unauthorized "Invalid token format") ∧
  token_required (codec := reference_codec) demo_secret demo_view
    demo_registry 1010 (Some "Bearer abc") "status" =
    Return (unauthorized "Invalid token").
Proof.
  destruct (token_required_rejections (codec := reference_codec) demo_secret
              demo_view demo_registry 1010 "status")
    as (_ & _ & Hformat & Hinvalid).
  split.
  - apply (Hformat "Bearer"); [discriminate | reflexivity].
  - apply (Hinvalid "Bearer abc" "abc"); [reflexivity | vm_compute; reflexivity].
Defined.

(** The issued token is accepted under two other scheme words. *)
Lemma token_required_ignores_scheme_witness :
  token_required (codec := reference_codec) demo_secret demo_view
    demo_registry 1010 (Some ("Basic" +:+ String " " demo_token)) "status" =
    Return (Passed (demo_view "status")) ∧
  token_required (codec := reference_codec) demo_secret demo_view
    demo_registry 1010
    (Some ("Wrong" +:+ String " " (demo_token +:+ String " " "extra")))
    "status" = Return (Passed (demo_view "status")).
Proof.
  destruct (token_required_ignores_scheme (codec := reference_codec)
              demo_secret demo_view demo_registry 1010 "status")
    as (_ & _ & Haccept & _).
  split.
  - apply (Haccept "Basic" demo_token "");
      [reflexivity | vm_compute; reflexivity | vm_compute; reflexivity].
  - apply (Haccept "Wrong" demo_token "extra");
      [reflexivity | vm_compute; reflexivity | vm_compute; reflexivity].
Defined.

(** ** The vendor client *)

Section UpstreamFacts.

Variable vendor : list http_request → http_request → http_outcome.
Variable str_other : json → string.

Lemma authenticate_run (now : Z) (w : world) :
  authenticate vendor now w =
  let w1 := logged w (login_request (self w)) in
  match vendor (sent w) (login_request (self w)) with
  | Failed _ _ => (Return false, w1)
  | Replied data =>
      match dict_get data "code" JNull with
      | Raise e => (Raise e, w1)
      | Return code =>
          if eq_int code 0 then
            match getitem data "data" with
            | Raise e => (Raise e, w1)
            | Return d =>
                match getitem d "access_token" with
                | Raise e => (Raise e, w1)
                | Return a =>
                    match getitem d "refresh_token" with
                    | Raise e =>
                        (Raise e,
                         World (Api (email (self w)) (password (self w)) a
                                  (refresh_token (self w))
                                  (token_expiration (self w)))
                           (sent w1))
                    | Return r =>
                        (Return true,
                         World (Api (email (self w)) (password (self w)) a r
                                  (Some (now + hours 23)))
                           (sent w1))
                    end
                end
            end
          else (Return false, w1)
      end
  end.
Proof.
  unfold authenticate, try_except_RequestException, bind, get_self,
    requests_post, exchange, lift, login_request, logged, REOLINK_API_BASE.
  simpl.
  destruct (vendor _ _) as [kind msg|data]; [reflexivity|].
  destruct data as [| | | | |fields]; simpl; try reflexivity.
  destruct (eq_int (get_or fields "code" JNull) 0); [|reflexivity].
  destruct (assoc "data" fields) as [d|]; simpl; [|reflexivity].
  destruct d as [| | | | |dd]; simpl; try reflexivity.
  destruct (assoc "access_token" dd) as [a|]; simpl; [|reflexivity].
  destruct (assoc "refresh_token" dd) as [r|]; simpl; reflexivity.
Qed.

Lemma authenticate_sent (now : Z) (w : world) :
  sent (authenticate vendor now w).2 = (sent w ++ [login_request (self w)])%list.
Proof.
  rewrite authenticate_run. simpl.
  repeat match goal with
         | |- context [match ?x with _ => _ end] => destruct x
         end; reflexivity.
Qed.

Lemma authenticate_raises (now : Z) (w : world) (e : exception) :
  (authenticate vendor now w).1 = Raise e →
  e = AttributeError ∨ e = TypeError ∨ ∃ k, e = KeyError k.
Proof.
  rewrite authenticate_run. simpl.
  destruct (vendor _ _) as [kind msg|data]; [discriminate|].
  destruct data as [| | | | |fields]; simpl; try (intros [= <-]; eauto).
  destruct (eq_int _ 0); [|discriminate].
  destruct (assoc "data" fields) as [d|]; simpl; [|intros [= <-]; eauto].
  destruct d as [| | | | |dd]; simpl; try (intros [= <-]; eauto).
  destruct (assoc "access_token" dd); simpl; [|intros [= <-]; eauto].
  destruct (assoc "refresh_token" dd); simpl; [discriminate|intros [= <-]; eauto].
Qed.

Lemma authenticate_well_formed (now : Z) (w : world) :
  login_wire_format (vendor (sent w) (login_request (self w))) = true →
  ∃ b, (authenticate vendor now w).1 = Return b.
Proof.
  rewrite authenticate_run. simpl.
  destruct (vendor _ _) as [kind msg|data]; simpl; [eauto|].
  destruct data as [| | | | |fields]; try discriminate.
  unfold code_zero. simpl.
  destruct (eq_int _ 0); [|eauto].
  destruct (assoc "data" fields) as [[| | | | |d]|]; try discriminate. simpl.
  destruct (assoc "access_token" d); [|discriminate].
  destruct (assoc "refresh_token" d); [|discriminate]. eauto.
Qed.

Lemma guard_run (now : Z) (w : world) :
  authenticate_if_no_token vendor now w =
  if truthy (access_token (self w)) then (Return tt, w)
  else match authenticate vendor now w with
       | (Return _, w1) => (Return tt, w1)
       | (Raise e, w1) => (Raise e, w1)
       end.
Proof.
  unfold authenticate_if_no_token, bind, get_self, ret.
  destruct (truthy (access_token (self w))); simpl; [reflexivity|].
  destruct (authenticate vendor now w) as [[b|e] w1]; reflexivity.
Qed.

Lemma guard_raises (now : Z) (w : world) (e : exception) :
  (authenticate_if_no_token vendor now w).1 = Raise e →
  e = AttributeError ∨ e = TypeError ∨ ∃ k, e = KeyError k.
Proof.
  rewrite guard_run. destruct (truthy _); [discriminate|].
  destruct (authenticate vendor now w) as [[b|e'] w1] eqn:Ha; [discriminate|].
  simpl. intros [= ->]. apply (authenticate_raises now w). by rewrite Ha.
Qed.

Lemma guard_completes (now : Z) (w : world) :
  login_well_formed vendor w = true →
  (authenticate_if_no_token vendor now w).1 = Return tt.
Proof.
  unfold login_well_formed. rewrite guard_run.
  destruct (truthy _); simpl; [done|]. intros Hwf.
  destruct (authenticate_well_formed now w Hwf) as [b Hb].
  destruct (authenticate vendor now w) as [[b'|e] w1]; [done|discriminate].
Qed.

(** The shape shared by the four camera operations: the guard, one
    exchange built from the instance, and a continuation on the reply. *)
Lemma camera_operation_run {A : Type} (now : Z)
    (request : ReonlinkCloudAPI → http_request)
    (k : json → M A) (h : string → M A) (w : world) :
  try_except_RequestException
    (bind (authenticate_if_no_token vendor now) (λ _,
     bind get_self (λ me,
     bind (exchange vendor (request me)) k))) h w =
  match authenticate_if_no_token vendor now w with
  | (Raise e, w1) => (Raise e, w1)
  | (Return _, w1) =>
      let w2 := logged w1 (request (self w1)) in
      match vendor (sent w1) (request (self w1)) with
      | Failed _ msg => h msg w2
      | Replied data => try_except_RequestException (k data) h w2
      end
  end.
Proof.
  unfold try_except_RequestException at 1. unfold bind at 1.
  destruct (authenticate_if_no_token vendor now w) as [[u|e] w1] eqn:Hg.
  - unfold bind, get_self, exchange, logged. simpl.
    destruct (vendor _ _) as [kind msg|data]; reflexivity.
  - destruct (guard_raises now w e) as [->|[->|[key ->]]];
      [by rewrite Hg | reflexivity..].
Qed.

Lemma authenticate_false (now : Z) (w : world) :
  (authenticate vendor now w).1 = Return false →
  (authenticate vendor now w).2 = logged w (login_request (self w)).
Proof.
  rewrite authenticate_run. simpl.
  destruct (vendor _ _) as [kind msg|data]; [reflexivity|].
  destruct (dict_get data "code" JNull) as [code|e]; [|reflexivity].
  destruct (eq_int code 0); [|reflexivity].
  destruct (getitem data "data") as [d|e]; [|reflexivity].
  destruct (getitem d "access_token") as [a|e]; [|reflexivity].
  destruct (getitem d "refresh_token") as [r|e]; discriminate.
Qed.


Ltac run_reply :=
  unfold try_except_RequestException, bind, lift, ret, dict_get, getitem;
  simpl.

(** After the exchange an operation only reads the reply. *)
Lemma camera_operation_world {A : Type} (now : Z)
    (request : ReonlinkCloudAPI → http_request)
    (k : json → M A) (h : string → M A) (w : world) :
  (∀ data w', (try_except_RequestException (k data) h w').2 = w') →
  (∀ msg w', (h msg w').2 = w') →
  (try_except_RequestException
     (bind (authenticate_if_no_token vendor now) (λ _,
      bind get_self (λ me,
      bind (exchange vendor (request me)) k))) h w).2 =
  match authenticate_if_no_token vendor now w with
  | (Raise e, w1) => w1
  | (Return _, w1) => logged w1 (request (self w1))
  end.
Proof.
  intros Hk Hh. rewrite camera_operation_run.
  destruct (authenticate_if_no_token vendor now w) as [[u|e] w1]; [|done].
  simpl. destruct (vendor _ _) as [kind msg|data]; [apply Hh | apply Hk].
Qed.

Lemma get_camera_status_world (now : Z) (camera_uid : string) (w : world) :
  (get_camera_status vendor str_other now camera_uid w).2 =
  match authenticate_if_no_token vendor now w with
  | (Raise e, w1) => w1
  | (Return _, w1) => logged w1 (status_request str_other camera_uid (self w1))
  end.
Proof.
  apply (camera_operation_world now (status_request str_other camera_uid)); [|done].
  intros data w'. run_reply. repeat case_match; by simplify_eq.
Qed.

Lemma ptz_control_world (now : Z) (camera_uid direction : string)
    (value : json) (w : world) :
  (ptz_control vendor str_other now camera_uid direction value w).2 =
  match authenticate_if_no_token vendor now w with
  | (Raise e, w1) => w1
  | (Return _, w1) =>
      logged w1 (ptz_request str_other camera_uid direction value (self w1))
  end.
Proof.
  apply (camera_operation_world now (ptz_request str_other camera_uid direction value));
    [|done].
  intros data w'. run_reply. repeat case_match; by simplify_eq.
Qed.

Lemma recall_preset_world (now : Z) (camera_uid : string) (preset_id : json)
    (w : world) :
  (recall_preset vendor str_other now camera_uid preset_id w).2 =
  match authenticate_if_no_token vendor now w with
  | (Raise e, w1) => w1
  | (Return _, w1) => logged w1 (preset_request str_other camera_uid preset_id (self w1))
  end.
Proof.
  apply (camera_operation_world now (preset_request str_other camera_uid preset_id));
    [|done].
  intros data w'. run_reply. repeat case_match; by simplify_eq.
Qed.

Lemma get_presets_world (now : Z) (camera_uid : string) (w : world) :
  (get_presets vendor str_other now camera_uid w).2 =
  match authenticate_if_no_token vendor now w with
  | (Raise e, w1) => w1
  | (Return _, w1) => logged w1 (presets_request str_other camera_uid (self w1))
  end.
Proof.
  apply (camera_operation_world now (presets_request str_other camera_uid)); [|done].
  intros data w'. run_reply. repeat case_match; by simplify_eq.
Qed.

(** Replace an operation by the run of its shape: the guard, then the
    outcome of the exchange [request]. *)
Ltac run_operation op request :=
  let Hrun := fresh "Hrun" in
  eassert (Hrun : op = _) by apply (camera_operation_run _ request);
  rewrite Hrun; clear Hrun.

(** Name the world the guard leaves, for a start that is well-formed. *)
Ltac run_guard now Hwf w1 :=
  let Hg := fresh "Hg" in
  pose proof (guard_completes now _ Hwf) as Hg;
  match type of Hg with
  | (authenticate_if_no_token ?v now ?w).1 = _ =>
      destruct (authenticate_if_no_token v now w) as [? w1];
      simpl in Hg; subst; simpl
  end.

(** C6. With the vendor keeping to the login wire format,
    [get_camera_status] maps a reply with code 0 and its data to the
    record whose
    status is 'Online' when the vendor's status equals 1 and 'Offline'
    otherwise, whose name and uid are the vendor's, and whose pan, tilt
    and zoom are 0, 0 and 1; a reply with another code gives
    [{error: msg}] and a failed exchange gives [{error: str(e)}]. *)
Theorem get_camera_status_spec (now : Z) (camera_uid : string) (w : world) :
  let w1 := (authenticate_if_no_token vendor now w).2 in
  let out := vendor (sent w1) (status_request str_other camera_uid (self w1)) in
  let r := (get_camera_status vendor str_other now camera_uid w).1 in
  login_well_formed vendor w = true →
  (∀ fields d,
     out = Replied (JObj fields) → code_zero (JObj fields) = true →
     assoc "data" fields = Some (JObj d) →
     r = Return (JObj [("status",
                        JStr (if eq_int (get_or d "status" JNull) 1
                              then "Online" else "Offline"));
                       ("name", get_or d "name" JNull);
                       ("uid", get_or d "uid" JNull);
                       ("pan", JInt 0);
                       ("tilt", JInt 0);
                       ("zoom", JInt 1)])) ∧
  (∀ fields,
     out = Replied (JObj fields) → code_zero (JObj fields) = false →
     r = Return (JObj [("error", get_or fields "msg" JNull)])) ∧
  (∀ kind msg,
     out = Failed kind msg → r = Return (JObj [("error", JStr msg)])).
Proof.
  intros w1 out r Hwf. subst w1 out r.
  run_operation (get_camera_status vendor str_other now camera_uid w)
    (status_request str_other camera_uid).
  run_guard now Hwf w1.
  repeat split.
  - intros fields d Hout Hcode Hdata.
    rewrite Hout. unfold code_zero in Hcode. simpl in Hcode.
    run_reply. by rewrite Hcode, Hdata.
  - intros fields Hout Hcode.
    rewrite Hout. unfold code_zero in Hcode. simpl in Hcode.
    run_reply. by rewrite Hcode.
  - intros kind msg Hout. by rewrite Hout.
Qed.

(** C7. With the vendor keeping to the login wire format,
    [get_presets] returns the vendor's preset list (the empty list when
    the data names none) on a reply with code 0, and the empty list on
    a reply with another code and on every failed exchange, be it a
    timeout, a connection failure or an error status. *)
Theorem get_presets_spec (now : Z) (camera_uid : string) (w : world) :
  let w1 := (authenticate_if_no_token vendor now w).2 in
  let out := vendor (sent w1) (presets_request str_other camera_uid (self w1)) in
  let r := (get_presets vendor str_other now camera_uid w).1 in
  login_well_formed vendor w = true →
  (∀ fields d,
     out = Replied (JObj fields) → code_zero (JObj fields) = true →
     assoc "data" fields = Some (JObj d) →
     r = Return (get_or d "presets" (JArr []))) ∧
  (∀ fields,
     out = Replied (JObj fields) → code_zero (JObj fields) = false →
     r = Return (JArr [])) ∧
  (∀ kind msg, out = Failed kind msg → r = Return (JArr [])).
Proof.
  intros w1 out r Hwf. subst w1 out r.
  run_operation (get_presets vendor str_other now camera_uid w)
    (presets_request str_other camera_uid).
  run_guard now Hwf w1.
  repeat split.
  - intros fields d Hout Hcode Hdata.
    rewrite Hout. unfold code_zero in Hcode. simpl in Hcode.
    run_reply. by rewrite Hcode, Hdata.
  - intros fields Hout Hcode.
    rewrite Hout. unfold code_zero in Hcode. simpl in Hcode.
    run_reply. by rewrite Hcode.
  - intros kind msg Hout. by rewrite Hout.
Qed.

(** The result of [ptz_control], by the outcome of its exchange. *)
Lemma ptz_control_result (now : Z) (camera_uid direction : string)
    (value : json) (w : world) :
  let w1 := (authenticate_if_no_token vendor now w).2 in
  login_well_formed vendor w = true →
  (ptz_control vendor str_other now camera_uid direction value w).1 =
  match vendor (sent w1) (ptz_request str_other camera_uid direction value (self w1)) with
  | Failed _ msg =>
      Return (JObj [("success", JBool false); ("error", JStr msg)])
  | Replied (JObj fields) =>
      if code_zero (JObj fields) then
        Return (JObj [("success", JBool true);
                      ("message", JStr (direction +:+ " command sent"))])
      else
        Return (JObj [("success", JBool false);
                      ("error", get_or fields "msg" JNull)])
  | Replied _ => Raise AttributeError
  end.
Proof.
  intros w1 Hwf. subst w1.
  run_operation (ptz_control vendor str_other now camera_uid direction value w)
    (ptz_request str_other camera_uid direction value).
  run_guard now Hwf w1.
  destruct (vendor (sent w1) _) as [kind msg|data]; [done|].
  destruct data as [| | | | |fields]; try done.
  unfold code_zero. run_reply.
  by destruct (eq_int (get_or fields "code" JNull) 0).
Qed.

(** C8. With the vendor keeping to the login wire format, [ptz_control]
    posts the one-key body [{direction: value}]; its result has success
    true exactly when the vendor replies with code 0; a reply
    [{code: 1, msg: "bad"}] gives [{success: false, error: "bad"}] and a
    failed exchange gives [{success: false, error: str(e)}]. *)
Theorem ptz_control_spec (now : Z) (camera_uid direction : string)
    (value : json) (w : world) :
  let w1 := (authenticate_if_no_token vendor now w).2 in
  let request := ptz_request str_other camera_uid direction value (self w1) in
  let out := vendor (sent w1) request in
  let r := (ptz_control vendor str_other now camera_uid direction value w).1 in
  let w' := (ptz_control vendor str_other now camera_uid direction value w).2 in
  login_well_formed vendor w = true →
  (sent w' = (sent w1 ++ [request])%list ∧
   req_method request = POST ∧
   req_json request = Some (JObj [(direction, value)])) ∧
  ((∃ d, r = Return (JObj d) ∧ assoc "success" d = Some (JBool true)) ↔
   (∃ fields, out = Replied (JObj fields) ∧ code_zero (JObj fields) = true)) ∧
  (∀ fields,
     out = Replied (JObj fields) → code_zero (JObj fields) = true →
     r = Return (JObj [("success", JBool true);
                       ("message", JStr (direction +:+ " command sent"))])) ∧
  (∀ fields,
     out = Replied (JObj fields) → code_zero (JObj fields) = false →
     r = Return (JObj [("success", JBool false);
                       ("error", get_or fields "msg" JNull)])) ∧
  (out = Replied (JObj [("code", JInt 1); ("msg", JStr "bad")]) →
   r = Return (JObj [("success", JBool false); ("error", JStr "bad")])) ∧
  (∀ kind msg,
     out = Failed kind msg →
     r = Return (JObj [("success", JBool false); ("error", JStr msg)])).
Proof.
  intros w1 request out r w' Hwf. subst w1 request out r w'.
  rewrite ptz_control_world, (ptz_control_result now _ _ _ w Hwf).
  pose proof (guard_completes now w Hwf) as Hg.
  destruct (authenticate_if_no_token vendor now w) as [g w1].
  simpl in Hg. subst g. simpl.
  split; [done|]. split; [|repeat split].
  - split.
    + intros (d & Hr & Hsucc).
      destruct (vendor (sent w1) _) as [kind msg|data].
      { injection Hr as <-. discriminate. }
      destruct data as [| | | | |fields]; try discriminate.
      exists fields. split; [done|].
      destruct (code_zero (JObj fields)); [done|].
      injection Hr as <-. discriminate.
    + intros (fields & -> & ->). eauto.
  - by intros fields -> ->.
  - by intros fields -> ->.
  - by intros ->.
  - by intros kind msg ->.
Qed.

Lemma guard_sent (now : Z) (w : world) :
  sent (authenticate_if_no_token vendor now w).2 =
  if truthy (access_token (self w)) then sent w
  else (sent w ++ [login_request (self w)])%list.
Proof.
  rewrite guard_run. destruct (truthy _); [done|].
  rewrite <- (authenticate_sent now w).
  by destruct (authenticate vendor now w) as [[b|e] w1].
Qed.

Lemma guard_truthy (now : Z) (w : world) :
  truthy (access_token (self w)) = true →
  authenticate_if_no_token vendor now w = (Return tt, w).
Proof. intros H. by rewrite guard_run, H. Qed.

(** C4, as amended. The client logs in once when it is constructed.
    After that a login is sent only by the guard of a camera operation,
    and only when [access_token] is falsy: an operation started with a
    truthy token sends its own request and nothing else, one started
    with a falsy token sends the login first. The guard looks at
    [access_token] alone, never at the stored expiry. *)
Theorem authentication_points (now : Z) :
  (∀ email password before,
     sent (init vendor email password now before).2 =
     (before ++ [login_request (Api email password JNull JNull None)])%list) ∧
  (∀ w camera_uid direction value preset_id,
     truthy (access_token (self w)) = true →
     sent (get_camera_status vendor str_other now camera_uid w).2 =
       (sent w ++ [status_request str_other camera_uid (self w)])%list ∧
     sent (ptz_control vendor str_other now camera_uid direction value w).2 =
       (sent w ++ [ptz_request str_other camera_uid direction value (self w)])%list ∧
     sent (recall_preset vendor str_other now camera_uid preset_id w).2 =
       (sent w ++ [preset_request str_other camera_uid preset_id (self w)])%list ∧
     sent (get_presets vendor str_other now camera_uid w).2 =
       (sent w ++ [presets_request str_other camera_uid (self w)])%list) ∧
  (∀ w camera_uid direction value preset_id,
     truthy (access_token (self w)) = false →
     let first := (sent w ++ [login_request (self w)])%list in
     first `prefix_of`
       sent (get_camera_status vendor str_other now camera_uid w).2 ∧
     first `prefix_of`
       sent (ptz_control vendor str_other now camera_uid direction value w).2 ∧
     first `prefix_of`
       sent (recall_preset vendor str_other now camera_uid preset_id w).2 ∧
     first `prefix_of`
       sent (get_presets vendor str_other now camera_uid w).2) ∧
  (∀ email password access refresh expiry expiry' before,
     (authenticate_if_no_token vendor now
        (World (Api email password access refresh expiry) before)).1 =
     (authenticate_if_no_token vendor now
        (World (Api email password access refresh expiry') before)).1 ∧
     sent (authenticate_if_no_token vendor now
             (World (Api email password access refresh expiry) before)).2 =
     sent (authenticate_if_no_token vendor now
             (World (Api email password access refresh expiry') before)).2).
Proof.
  split; [|split; [|split]].
  - intros email password before. unfold init, bind, ret.
    pose proof (authenticate_sent now
                  (World (Api email password JNull JNull None) before)) as Hs.
    by destruct (authenticate vendor now _) as [[b|e] w1].
  - intros w camera_uid direction value preset_id Htok.
    rewrite get_camera_status_world, ptz_control_world, recall_preset_world,
      get_presets_world, (guard_truthy now w Htok). done.
  - intros w camera_uid direction value preset_id Htok first.
    assert (Hfirst : first `prefix_of`
              sent (authenticate_if_no_token vendor now w).2).
    { rewrite guard_sent, Htok. done. }
    rewrite get_camera_status_world, ptz_control_world, recall_preset_world,
      get_presets_world.
    destruct (authenticate_if_no_token vendor now w) as [[u|e] w1];
      simpl in *; [|done].
    repeat split; (etransitivity; [exact Hfirst | by apply prefix_app_r]).
  - intros email password access refresh expiry expiry' before.
    rewrite !guard_run, !authenticate_run. simpl.
    destruct (truthy access); [done|].
    destruct (vendor before _) as [kind msg|data]; [done|].
    destruct (dict_get data "code" JNull) as [code|e]; [|done].
    destruct (eq_int code 0); [|done].
    destruct (getitem data "data") as [d|e]; [|done].
    destruct (getitem d "access_token") as [a|e]; [|done].
    by destruct (getitem d "refresh_token") as [t|e].
Qed.

(** C9. When [access_token] is [None] and the login made by the guard
    fails, each of the four camera operations goes on: after the login
    it sends its own request, with the header [Authorization] set to
    'Bearer None'. *)
Theorem operations_proceed_without_token (now : Z)
    (camera_uid direction : string) (value preset_id : json) (w : world) :
  access_token (self w) = JNull →
  (authenticate vendor now w).1 = Return false →
  let anonymous := [("Authorization", "Bearer None")] in
  let base := "https://api.reolink.com/v1" in
  sent (get_camera_status vendor str_other now camera_uid w).2 =
    (sent w ++ [login_request (self w);
                HttpRequest GET (base +:+ "/camera/" +:+ camera_uid)
                  None anonymous 10])%list ∧
  sent (ptz_control vendor str_other now camera_uid direction value w).2 =
    (sent w ++ [login_request (self w);
                HttpRequest POST
                  (base +:+ "/camera/" +:+ camera_uid +:+ "/ptz")
                  (Some (JObj [(direction, value)])) anonymous 10])%list ∧
  sent (recall_preset vendor str_other now camera_uid preset_id w).2 =
    (sent w ++ [login_request (self w);
                HttpRequest POST
                  (base +:+ "/camera/" +:+ camera_uid +:+ "/preset/"
                   +:+ py_str str_other preset_id)
                  None anonymous 10])%list ∧
  sent (get_presets vendor str_other now camera_uid w).2 =
    (sent w ++ [login_request (self w);
                HttpRequest GET
                  (base +:+ "/camera/" +:+ camera_uid +:+ "/presets")
                  None anonymous 10])%list.
Proof.
  intros Hnone Hfail anonymous base. subst anonymous base.
  assert (Hguard : authenticate_if_no_token vendor now w =
                   (Return tt, logged w (login_request (self w)))).
  { rewrite guard_run, Hnone. simpl.
    pose proof (authenticate_false now w Hfail) as Hw.
    destruct (authenticate vendor now w) as [[b|e] w1]; simpl in *;
      [by subst | discriminate]. }
  rewrite get_camera_status_world, ptz_control_world, recall_preset_world,
    get_presets_world, Hguard.
  unfold logged, status_request, ptz_request, preset_request, presets_request,
    bearer_headers. simpl. rewrite Hnone. simpl.
  by rewrite <- !app_assoc.
Qed.

End UpstreamFacts.

(** The client logs in while it is constructed, before any camera
    operation is called. *)
Lemma init_logs_in :
  sent (init demo_vendor "user@example.com" "hunter2" 0 []).2 =
  [HttpRequest POST "https://api.reolink.com/v1/login"
     (Some (JObj [("email", JStr "user@example.com");
                  ("password", JStr "hunter2")])) [] 10] ∧
  access_token (self (init demo_vendor "user@example.com" "hunter2" 0 []).2) =
  JStr "A".
Proof. split; reflexivity. Qed.


(** With a session the status query sends one request; without one it
    sends the login first. *)
Lemma authentication_points_witness :
  sent (get_camera_status demo_vendor demo_str_other 0 "U1" demo_world_in).2 =
  [status_request demo_str_other "U1" (self demo_world_in)] ∧
  [login_request (self demo_world)] `prefix_of`
    sent (get_camera_status demo_vendor demo_str_other 0 "U1" demo_world).2.
Proof.
  destruct (authentication_points demo_vendor demo_str_other 0)
    as (_ & Hkeep & Hlogin & _).
  split.
  - apply (Hkeep demo_world_in "U1" "pan" (JInt 10) (JInt 1)). reflexivity.
  - apply (Hlogin demo_world "U1" "pan" (JInt 10) (JInt 1)). reflexivity.
Defined.

(** The status scenario: an online camera named Cam1. *)
Lemma get_camera_status_spec_witness :
  login_well_formed demo_vendor demo_world = true ∧
  (get_camera_status demo_vendor demo_str_other 0 "U1" demo_world).1 =
  Return (JObj [("status", JStr "Online"); ("name", JStr "Cam1");
                ("uid", JStr "U1"); ("pan", JInt 0); ("tilt", JInt 0);
                ("zoom", JInt 1)]).
Proof.
  split; [reflexivity|].
  destruct (get_camera_status_spec demo_vendor demo_str_other 0 "U1"
              demo_world eq_refl) as (Hzero & _).
  apply (Hzero [("code", JInt 0);
                ("data", JObj [("status", JInt 1); ("name", JStr "Cam1");
                               ("uid", JStr "U1");
                               ("presets", JArr [JStr "door"])])]
               [("status", JInt 1); ("name", JStr "Cam1"); ("uid", JStr "U1");
                ("presets", JArr [JStr "door"])]);
    reflexivity.
Defined.

(** The presets scenario: the vendor times out. *)
Lemma get_presets_spec_witness :
  login_well_formed demo_vendor_down demo_world = true ∧
  (get_presets demo_vendor_down demo_str_other 0 "U1" demo_world).1 =
  Return (JArr []).
Proof.
  split; [reflexivity|].
  destruct (get_presets_spec demo_vendor_down demo_str_other 0 "U1"
              demo_world eq_refl) as (_ & _ & Hfailed).
  apply (Hfailed Timeout "Read timed out."). reflexivity.
Defined.

(** The pan scenario: the vendor answers code 1 with 'bad'. *)
Lemma ptz_control_spec_witness :
  login_well_formed demo_vendor demo_world = true ∧
  (ptz_control demo_vendor demo_str_other 0 "U1" "pan" (JInt 10) demo_world).1 =
  Return (JObj [("success", JBool false); ("error", JStr "bad")]).
Proof.
  split; [reflexivity|].
  destruct (ptz_control_spec demo_vendor demo_str_other 0 "U1" "pan" (JInt 10)
              demo_world eq_refl) as (_ & _ & _ & _ & Hbad & _).
  apply Hbad. reflexivity.
Defined.

(** With the vendor down the status query still sends its request. *)
Lemma operations_proceed_without_token_witness :
  sent (get_camera_status demo_vendor_down demo_str_other 0 "U1" demo_world).2 =
  [login_request (self demo_world);
   HttpRequest GET "https://api.reolink.com/v1/camera/U1" None
     [("Authorization", "Bearer None")] 10].
Proof.
  apply (operations_proceed_without_token demo_vendor_down demo_str_other 0
           "U1" "pan" (JInt 10) (JInt 1) demo_world);
    reflexivity.
Defined.

(** * Further properties *)

(** ** Tokens over time and across the registry *)

Section SessionAuthorityMore.

Context {codec : JwtCodec}.
Variable SECRET_KEY : string.

(** Decoding a token [generate_token] made succeeds exactly between its
    issue reading and its expiry. *)
Lemma jwt_decode_issued (utcnow_exp utcnow_iat : Z) (user_id : string)
    (valid_tokens : gset string) (now : Z) :
  (∃ c, jwt_decode
          (generate_token SECRET_KEY utcnow_exp utcnow_iat user_id
             valid_tokens).1 SECRET_KEY now = Return c) ↔
  utcnow_iat ≤ now ∧ now < utcnow_exp + hours 24.
Proof.
  simpl. split.
  - intros [c (j & Hj & _ & _ & _ & Hi & He)%jwt_decode_Return].
    rewrite jws_load_encode in Hj. injection Hj as <-. simpl in *.
    split; [by apply Hi | by apply He].
  - intros [Hi He]. eexists. apply jwt_decode_Return.
    eexists. split; [apply jws_load_encode|]. simpl.
    repeat split; auto; intros ? [= <-]; lia.
Qed.

(** Once 24 hours have passed since the reading taken at issue, the
    token is refused at every later instant, on every registry, also on
    those that still hold it: the registry only grows and expiry alone
    ends a session. *)
Theorem verify_token_after_expiry (utcnow_exp utcnow_iat : Z)
    (user_id : string) (valid_tokens later : gset string) (now : Z) :
  let issued :=
    generate_token SECRET_KEY utcnow_exp utcnow_iat user_id valid_tokens in
  utcnow_exp + hours 24 ≤ now →
  issued.2 ⊆ later →
  issued.1 ∈ later ∧
  verify_token SECRET_KEY later now issued.1 = Return false.
Proof.
  intros issued Hexp Hsub. split.
  { apply Hsub. subst issued. simpl. set_solver. }
  destruct (verify_token_total SECRET_KEY later now issued.1) as [[] Hb];
    [|done].
  apply verify_token_true in Hb as [_ Hdec].
  apply jwt_decode_issued in Hdec. lia.
Qed.

(** Issuing a token changes the answer of [verify_token] for no other
    string: tokens issued before stay valid, and nothing but the new
    token becomes valid. *)
Theorem generate_token_frame (utcnow_exp utcnow_iat : Z) (user_id : string)
    (valid_tokens : gset string) (now : Z) (token : string) :
  let issued :=
    generate_token SECRET_KEY utcnow_exp utcnow_iat user_id valid_tokens in
  token ≠ issued.1 →
  verify_token SECRET_KEY issued.2 now token =
  verify_token SECRET_KEY valid_tokens now token.
Proof.
  intros issued Hne. subst issued. simpl in *. unfold verify_token.
  assert (Hiff : token ∉ ({[jwt_encode
                             (Claims user_id (Some (utcnow_exp + hours 24))
                                (Some utcnow_iat)) SECRET_KEY]} ∪ valid_tokens)
                 ↔ token ∉ valid_tokens).
  { rewrite not_elem_of_union, not_elem_of_singleton. tauto. }
  by rewrite (bool_decide_ext _ _ Hiff).
Qed.

End SessionAuthorityMore.

(** ** From login to the decorated views *)

Section DecoratorMore.

Context {codec : JwtCodec}.
Variable SECRET_KEY : string.

(** The decorated view never raises, and the wrapped view runs exactly
    when the header has a second space-separated segment that
    [verify_token] accepts; every other request gets one of the three
    401 answers. *)
Theorem token_required_passes_iff {A R : Type} (f : A → R)
    (valid_tokens : gset string) (now : Z) (authorization : option string)
    (args : A) :
  let answer :=
    token_required SECRET_KEY f valid_tokens now authorization args in
  (answer = Return (Passed (f args)) ∨
   answer = Return (unauthorized "No token provided") ∨
   answer = Return (unauthorized "Invalid token format") ∨
   answer = Return (unauthorized "Invalid token")) ∧
  (answer = Return (Passed (f args)) ↔
   ∃ header token,
     authorization = Some header ∧
     split_space header !! 1%nat = Some token ∧
     verify_token SECRET_KEY valid_tokens now token = Return true).
Proof.
  intros answer. subst answer.
  destruct authorization as [header|].
  2:{ split; [by right; left|]. split; [done | by intros (? & ? & [=] & _)]. }
  destruct (decide (header = "")) as [->|Hne].
  { split; [by right; left|].
    split; [done | by intros (? & ? & [= <-] & [=] & _)]. }
  rewrite token_required_header by done.
  destruct (split_space header !! 1%nat) as [token|] eqn:Hseg.
  - destruct (verify_token_total SECRET_KEY valid_tokens now token)
      as [[] Hb]; rewrite Hb.
    + split; [by left|]. split; [eauto|done].
    + split; [by do 3 right|]. split; [done|].
      intros (h & t & [= <-] & Ht & Hv). congruence.
  - split; [by right; right; left|]. split; [done|].
    intros (h & t & [= <-] & Ht & _). congruence.
Qed.

(** Two spaces after the scheme word make the empty string the token:
    the request gets 'Invalid token' whatever follows, a valid token
    included, as long as the empty string is not in the registry. *)
Theorem token_required_double_space {A R : Type} (f : A → R)
    (valid_tokens : gset string) (now : Z) (scheme rest : string)
    (args : A) :
  contains_space scheme = false →
  "" ∉ valid_tokens →
  split_space (scheme +:+ String " " (String " " rest)) !! 1%nat = Some "" ∧
  token_required SECRET_KEY f valid_tokens now
    (Some (scheme +:+ String " " (String " " rest))) args =
  Return (unauthorized "Invalid token").
Proof.
  intros Hsp Hempty.
  assert (Hseg : split_space (scheme +:+ String " " (String " " rest))
                   !! 1%nat = Some "").
  { by rewrite split_space_app. }
  split; [done|].
  rewrite token_required_header by by destruct scheme.
  rewrite Hseg. unfold verify_token. by rewrite bool_decide_true.
Qed.

End DecoratorMore.

(** The issued token of the concrete run is refused from its expiry at
    87400 on. *)
Lemma verify_token_after_expiry_witness :
  demo_token ∈ demo_registry ∧
  verify_token (codec := reference_codec) demo_secret demo_registry 87400
    demo_token = Return false.
Proof.
  apply (verify_token_after_expiry (codec := reference_codec) demo_secret
           1000 1000 "860" ∅ demo_registry 87400).
  - unfold hours. lia.
  - reflexivity.
Defined.

(** Issuing a second token leaves a string that is no token refused. *)
Lemma generate_token_frame_witness :
  verify_token (codec := reference_codec) demo_secret
    (generate_token (codec := reference_codec) demo_secret 2000 2000 "860"
       demo_registry).2 2010 "garbage" =
  verify_token (codec := reference_codec) demo_secret demo_registry 2010
    "garbage".
Proof.
  apply (generate_token_frame (codec := reference_codec) demo_secret
           2000 2000 "860" demo_registry 2010 "garbage").
  vm_compute. discriminate.
Defined.

(** 'Bearer', two spaces, then the issued token: refused. *)
Lemma token_required_double_space_witness :
  token_required (codec := reference_codec) demo_secret demo_view
    demo_registry 1010
    (Some ("Bearer" +:+ String " " (String " " demo_token))) "status" =
  Return (unauthorized "Invalid token").
Proof.
  apply (token_required_double_space (codec := reference_codec) demo_secret
           demo_view demo_registry 1010 "Bearer" demo_token "status").
  - reflexivity.
  - vm_compute. intros H. discriminate H.
Defined.

(** ** The vendor client: replies out of format, budgets, start-up *)

Section UpstreamMore.

Variable vendor : list http_request → http_request → http_outcome.
Variable str_other : json → string.

Ltac reply_steps :=
  unfold try_except_RequestException, bind, lift, ret, dict_get, getitem;
  simpl.

Ltac unfold_operation op request :=
  let Hrun := fresh "Hrun" in
  eassert (Hrun : op = _) by apply (camera_operation_run vendor _ request);
  rewrite Hrun; clear Hrun.

Ltac name_guard now Hwf w1 :=
  let Hg := fresh "Hg" in
  pose proof (guard_completes vendor now _ Hwf) as Hg;
  match type of Hg with
  | (authenticate_if_no_token ?v now ?w).1 = _ =>
      destruct (authenticate_if_no_token v now w) as [? w1];
      simpl in Hg; subst; simpl
  end.

(** The result of [recall_preset], by the outcome of its exchange. *)
Lemma recall_preset_result (now : Z) (camera_uid : string) (preset_id : json)
    (w : world) :
  let w1 := (authenticate_if_no_token vendor now w).2 in
  login_well_formed vendor w = true →
  (recall_preset vendor str_other now camera_uid preset_id w).1 =
  match vendor (sent w1)
          (preset_request str_other camera_uid preset_id (self w1)) with
  | Failed _ msg =>
      Return (JObj [("success", JBool false); ("error", JStr msg)])
  | Replied (JObj fields) =>
      if code_zero (JObj fields) then
        Return (JObj [("success", JBool true);
                      ("message", JStr "Preset recalled")])
      else
        Return (JObj [("success", JBool false);
                      ("error", get_or fields "msg" JNull)])
  | Replied _ => Raise AttributeError
  end.
Proof.
  intros w1 Hwf. subst w1.
  unfold_operation (recall_preset vendor str_other now camera_uid preset_id w)
    (preset_request str_other camera_uid preset_id).
  name_guard now Hwf w1.
  destruct (vendor (sent w1) _) as [kind msg|data]; [done|].
  destruct data as [| | | | |fields]; try done.
  unfold code_zero. reply_steps.
  by destruct (eq_int (get_or fields "code" JNull) 0).
Qed.

(** With the vendor keeping to the login wire format, [recall_preset]
    posts to the preset address of the camera, without a body; its
    result has success true exactly when the vendor replies with code
    0, carries the vendor's [msg] as error on another code, and carries
    [str(e)] on a failed exchange. *)
Theorem recall_preset_spec (now : Z) (camera_uid : string) (preset_id : json)
    (w : world) :
  let w1 := (authenticate_if_no_token vendor now w).2 in
  let request := preset_request str_other camera_uid preset_id (self w1) in
  let out := vendor (sent w1) request in
  let r := (recall_preset vendor str_other now camera_uid preset_id w).1 in
  let w' := (recall_preset vendor str_other now camera_uid preset_id w).2 in
  login_well_formed vendor w = true →
  (sent w' = (sent w1 ++ [request])%list ∧
   req_method request = POST ∧
   req_json request = None ∧
   req_url request =
     "https://api.reolink.com/v1" +:+ "/camera/" +:+ camera_uid
     +:+ "/preset/" +:+ py_str str_other preset_id) ∧
  ((∃ d, r = Return (JObj d) ∧ assoc "success" d = Some (JBool true)) ↔
   (∃ fields, out = Replied (JObj fields) ∧ code_zero (JObj fields) = true)) ∧
  (∀ fields,
     out = Replied (JObj fields) → code_zero (JObj fields) = true →
     r = Return (JObj [("success", JBool true);
                       ("message", JStr "Preset recalled")])) ∧
  (∀ fields,
     out = Replied (JObj fields) → code_zero (JObj fields) = false →
     r = Return (JObj [("success", JBool false);
                       ("error", get_or fields "msg" JNull)])) ∧
  (∀ kind msg,
     out = Failed kind msg →
     r = Return (JObj [("success", JBool false); ("error", JStr msg)])).
Proof.
  intros w1 request out r w' Hwf. subst w1 request out r w'.
  rewrite recall_preset_world, (recall_preset_result now _ _ w Hwf).
  pose proof (guard_completes vendor now w Hwf) as Hg.
  destruct (authenticate_if_no_token vendor now w) as [g w1].
  simpl in Hg. subst g. simpl.
  split; [done|]. split; [|repeat split].
  - split.
    + intros (d & Hr & Hsucc).
      destruct (vendor (sent w1) _) as [kind msg|data].
      { injection Hr as <-. discriminate. }
      destruct data as [| | | | |fields]; try discriminate.
      exists fields. split; [done|].
      destruct (code_zero (JObj fields)); [done|].
      injection Hr as <-. discriminate.
    + intros (fields & -> & ->). eauto.
  - by intros fields -> ->.
  - by intros fields -> ->.
  - by intros kind msg ->.
Qed.

(** [authenticate] on a reply with code 0 that is out of format: a
    reply that is no object raises [AttributeError], one without [data]
    raises [KeyError], both with the instance as it was; one whose data
    names an access token and no refresh token raises [KeyError] after
    the access token has been stored, with the refresh token and the
    expiry still the old ones. *)
Theorem authenticate_out_of_format (now : Z) (w : world) :
  let out := vendor (sent w) (login_request (self w)) in
  let r := (authenticate vendor now w).1 in
  let w' := (authenticate vendor now w).2 in
  (∀ data, out = Replied data → (∀ fields, data ≠ JObj fields) →
     r = Raise AttributeError ∧ self w' = self w) ∧
  (∀ fields, out = Replied (JObj fields) →
     code_zero (JObj fields) = true → assoc "data" fields = None →
     r = Raise (KeyError "data") ∧ self w' = self w) ∧
  (∀ fields d a, out = Replied (JObj fields) →
     code_zero (JObj fields) = true → assoc "data" fields = Some (JObj d) →
     assoc "access_token" d = Some a → assoc "refresh_token" d = None →
     r = Raise (KeyError "refresh_token") ∧
     access_token (self w') = a ∧
     refresh_token (self w') = refresh_token (self w) ∧
     token_expiration (self w') = token_expiration (self w)).
Proof.
  intros out r w'. subst out r w'. rewrite authenticate_run. simpl.
  split; [|split].
  - intros data -> Hno.
    destruct data as [| | | | |fields]; try done. by destruct (Hno fields).
  - intros fields -> Hcode Hdata. unfold code_zero in Hcode. simpl in *.
    by rewrite Hcode, Hdata.
  - intros fields d a -> Hcode Hdata Ha Hr. unfold code_zero in Hcode.
    simpl in *. by rewrite Hcode, Hdata; simpl; rewrite Ha, Hr.
Qed.




(** A camera operation started with a truthy access token leaves the
    instance as it was, whatever the vendor answers: a failed or
    refused exchange does not drop the session, so the next operation
    uses the same token again. *)
Theorem camera_operations_keep_session (now : Z)
    (camera_uid direction : string) (value preset_id : json) (w : world) :
  truthy (access_token (self w)) = true →
  self (get_camera_status vendor str_other now camera_uid w).2 = self w ∧
  self (ptz_control vendor str_other now camera_uid direction value w).2
    = self w ∧
  self (recall_preset vendor str_other now camera_uid preset_id w).2
    = self w ∧
  self (get_presets vendor str_other now camera_uid w).2 = self w.
Proof.
  intros Htok.
  rewrite get_camera_status_world, ptz_control_world, recall_preset_world,
    get_presets_world, (guard_truthy vendor now w Htok).
  done.
Qed.

(** What the guard and one exchange add to the requests sent. *)
Lemma guard_then_request_budget (now : Z)
    (request : ReonlinkCloudAPI → http_request) (w : world) :
  (∀ me, req_timeout (request me) = 10) →
  ∃ new,
    sent (match authenticate_if_no_token vendor now w with
          | (Raise e, w1) => w1
          | (Return _, w1) => logged w1 (request (self w1))
          end) = (sent w ++ new)%list ∧
    (List.length new = 1 ∨ List.length new = 2)%nat ∧
    Forall (λ req, req_timeout req = 10) new.
Proof.
  intros Htimeout. rewrite guard_run.
  destruct (truthy (access_token (self w))).
  { exists [request (self w)]. simpl. repeat split; auto. }
  pose proof (authenticate_sent vendor now w) as Hsent.
  destruct (authenticate vendor now w) as [[b|e] w1]; simpl in *.
  - exists [login_request (self w); request (self w1)].
    rewrite Hsent, <- app_assoc. simpl. repeat split; auto.
  - exists [login_request (self w)]. rewrite Hsent. repeat split; auto.
Qed.

(** Every camera operation adds one or two requests to those sent, never
    more (there is no retry), and each of them has the timeout 10. *)
Theorem camera_operations_request_budget (now : Z)
    (camera_uid direction : string) (value preset_id : json) (w : world) :
  let budget (w' : world) :=
    ∃ new, sent w' = (sent w ++ new)%list ∧
           (List.length new = 1 ∨ List.length new = 2)%nat ∧
           Forall (λ req, req_timeout req = 10) new in
  budget (get_camera_status vendor str_other now camera_uid w).2 ∧
  budget (ptz_control vendor str_other now camera_uid direction value w).2 ∧
  budget (recall_preset vendor str_other now camera_uid preset_id w).2 ∧
  budget (get_presets vendor str_other now camera_uid w).2.
Proof.
  intros budget. subst budget. simpl.
  rewrite get_camera_status_world, ptz_control_world, recall_preset_world,
    get_presets_world.
  repeat split; by apply guard_then_request_budget.
Qed.

(** After a login that the vendor answers with code 0 and a non-empty
    access token [a], [authenticate] has returned true and each camera
    operation sends exactly one request, with the header
    [Authorization] set to 'Bearer ' followed by [a]; it does not log
    in again, at whatever time it runs. *)
Theorem login_then_operations (now later : Z)
    (camera_uid direction : string) (value preset_id : json) (w : world)
    (fields d : list (string * json)) (a : string) (t : json) :
  vendor (sent w) (login_request (self w)) = Replied (JObj fields) →
  code_zero (JObj fields) = true →
  assoc "data" fields = Some (JObj d) →
  assoc "access_token" d = Some (JStr a) →
  assoc "refresh_token" d = Some t →
  a ≠ "" →
  let w1 := (authenticate vendor now w).2 in
  let bearer := [("Authorization", "Bearer " +:+ a)] in
  let base := "https://api.reolink.com/v1" in
  (authenticate vendor now w).1 = Return true ∧
  sent (get_camera_status vendor str_other later camera_uid w1).2 =
    (sent w ++ [login_request (self w);
                HttpRequest GET (base +:+ "/camera/" +:+ camera_uid)
                  None bearer 10])%list ∧
  sent (ptz_control vendor str_other later camera_uid direction value w1).2 =
    (sent w ++ [login_request (self w);
                HttpRequest POST
                  (base +:+ "/camera/" +:+ camera_uid +:+ "/ptz")
                  (Some (JObj [(direction, value)])) bearer 10])%list ∧
  sent (recall_preset vendor str_other later camera_uid preset_id w1).2 =
    (sent w ++ [login_request (self w);
                HttpRequest POST
                  (base +:+ "/camera/" +:+ camera_uid +:+ "/preset/"
                   +:+ py_str str_other preset_id)
                  None bearer 10])%list ∧
  sent (get_presets vendor str_other later camera_uid w1).2 =
    (sent w ++ [login_request (self w);
                HttpRequest GET
                  (base +:+ "/camera/" +:+ camera_uid +:+ "/presets")
                  None bearer 10])%list.
Proof.
  intros Hout Hcode Hdata Ha Ht Hne w1 bearer base. subst w1 bearer base.
  unfold code_zero in Hcode. simpl in Hcode.
  assert (Hrun : authenticate vendor now w =
                 (Return true,
                  World (Api (email (self w)) (password (self w)) (JStr a) t
                           (Some (now + hours 23)))
                    (sent w ++ [login_request (self w)]))).
  { rewrite authenticate_run, Hout. simpl.
    by rewrite Hcode, Hdata; simpl; rewrite Ha, Ht. }
  rewrite Hrun. simpl. split; [done|]. clear Hrun.
  set (w1 := World (Api (email (self w)) (password (self w)) (JStr a) t
                      (Some (now + hours 23)))
               (sent w ++ [login_request (self w)])).
  assert (Htok : truthy (access_token (self w1)) = true).
  { simpl. by destruct (String.eqb_spec a ""). }
  rewrite get_camera_status_world, ptz_control_world, recall_preset_world,
    get_presets_world.
  rewrite (guard_truthy vendor later w1 Htok). subst w1.
  unfold logged, status_request, ptz_request, preset_request, presets_request,
    bearer_headers. simpl.
  by rewrite <- !app_assoc.
Qed.

(** [get_presets] swallows failed exchanges but not replies out of
    format: with the login in format, a reply that is no object raises
    [AttributeError], a reply with code 0 and no [data] raises
    [KeyError], and one whose [data] is no object raises
    [AttributeError]; none of them gives the empty list. *)
Theorem get_presets_out_of_format (now : Z) (camera_uid : string) (w : world) :
  let w1 := (authenticate_if_no_token vendor now w).2 in
  let out := vendor (sent w1) (presets_request str_other camera_uid (self w1)) in
  let r := (get_presets vendor str_other now camera_uid w).1 in
  login_well_formed vendor w = true →
  (∀ data, out = Replied data → (∀ fields, data ≠ JObj fields) →
     r = Raise AttributeError) ∧
  (∀ fields, out = Replied (JObj fields) →
     code_zero (JObj fields) = true → assoc "data" fields = None →
     r = Raise (KeyError "data")) ∧
  (∀ fields v, out = Replied (JObj fields) →
     code_zero (JObj fields) = true → assoc "data" fields = Some v →
     (∀ d, v ≠ JObj d) →
     r = Raise AttributeError).
Proof.
  intros w1 out r Hwf. subst w1 out r.
  unfold_operation (get_presets vendor str_other now camera_uid w)
    (presets_request str_other camera_uid).
  name_guard now Hwf w1.
  split; [|split].
  - intros data -> Hno.
    destruct data as [| | | | |fields]; try done. by destruct (Hno fields).
  - intros fields -> Hcode Hdata. unfold code_zero in Hcode. simpl in Hcode.
    reply_steps. by rewrite Hcode, Hdata.
  - intros fields v -> Hcode Hdata Hno. unfold code_zero in Hcode.
    simpl in Hcode. reply_steps. rewrite Hcode, Hdata. simpl.
    destruct v as [| | | | |d]; try done. by destruct (Hno d).
Qed.

(** [get_camera_status] on a reply out of format, with the login in
    format: a reply that is no object raises [AttributeError], a reply
    with code 0 and no [data] raises [KeyError], and one whose [data]
    is no object raises [AttributeError]; none of them gives an
    [{error: ...}] value. *)
Theorem get_camera_status_out_of_format (now : Z) (camera_uid : string)
    (w : world) :
  let w1 := (authenticate_if_no_token vendor now w).2 in
  let out := vendor (sent w1) (status_request str_other camera_uid (self w1)) in
  let r := (get_camera_status vendor str_other now camera_uid w).1 in
  login_well_formed vendor w = true →
  (∀ data, out = Replied data → (∀ fields, data ≠ JObj fields) →
     r = Raise AttributeError) ∧
  (∀ fields, out = Replied (JObj fields) →
     code_zero (JObj fields) = true → assoc "data" fields = None →
     r = Raise (KeyError "data")) ∧
  (∀ fields v, out = Replied (JObj fields) →
     code_zero (JObj fields) = true → assoc "data" fields = Some v →
     (∀ d, v ≠ JObj d) →
     r = Raise AttributeError).
Proof.
  intros w1 out r Hwf. subst w1 out r.
  unfold_operation (get_camera_status vendor str_other now camera_uid w)
    (status_request str_other camera_uid).
  name_guard now Hwf w1.
  split; [|split].
  - intros data -> Hno.
    destruct data as [| | | | |fields]; try done. by destruct (Hno fields).
  - intros fields -> Hcode Hdata. unfold code_zero in Hcode. simpl in Hcode.
    reply_steps. by rewrite Hcode, Hdata.
  - intros fields v -> Hcode Hdata Hno. unfold code_zero in Hcode.
    simpl in Hcode. reply_steps. rewrite Hcode, Hdata. simpl.
    destruct v as [| | | | |d]; try done. by destruct (Hno d).
Qed.


End UpstreamMore.

(** The preset scenario: the vendor answers the POST with code 1. *)
Lemma recall_preset_spec_witness :
  login_well_formed demo_vendor demo_world = true ∧
  (recall_preset demo_vendor demo_str_other 0 "U1" (JStr "2") demo_world).1 =
  Return (JObj [("success", JBool false); ("error", JStr "bad")]).
Proof.
  split; [reflexivity|].
  destruct (recall_preset_spec demo_vendor demo_str_other 0 "U1" (JStr "2")
              demo_world eq_refl) as (_ & _ & _ & Hrefused & _).
  apply (Hrefused [("code", JInt 1); ("msg", JStr "bad")]); reflexivity.
Defined.

(** A login reply with code 0 and no refresh token: the access token is
    stored and [KeyError] raised. *)
Lemma authenticate_out_of_format_witness :
  (authenticate demo_vendor_terse 0 demo_world).1 =
    Raise (KeyError "refresh_token") ∧
  access_token (self (authenticate demo_vendor_terse 0 demo_world).2) =
    JStr "A" ∧
  refresh_token (self (authenticate demo_vendor_terse 0 demo_world).2) =
    JNull ∧
  token_expiration (self (authenticate demo_vendor_terse 0 demo_world).2) =
    None.
Proof.
  destruct (authenticate_out_of_format demo_vendor_terse 0 demo_world)
    as (_ & _ & Hhalf).
  apply (Hhalf [("code", JInt 0); ("data", JObj [("access_token", JStr "A")])]
               [("access_token", JStr "A")] (JStr "A"));
    reflexivity.
Defined.

(** With the vendor down the session of the instance stays as it is. *)
Lemma camera_operations_keep_session_witness :
  self (get_camera_status demo_vendor_down demo_str_other 90000 "U1"
          demo_world_in).2 = self demo_world_in.
Proof.
  apply (camera_operations_keep_session demo_vendor_down demo_str_other 90000
           "U1" "pan" (JInt 10) (JInt 1) demo_world_in).
  reflexivity.
Defined.

(** The login scenario: the token 'A' of the reply is the bearer of the
    status query that follows. *)
Lemma login_then_operations_witness :
  sent (get_camera_status demo_vendor demo_str_other 5 "U1"
          (authenticate demo_vendor 0 demo_world).2).2 =
  [login_request (self demo_world);
   HttpRequest GET "https://api.reolink.com/v1/camera/U1" None
     [("Authorization", "Bearer A")] 10].
Proof.
  apply (login_then_operations demo_vendor demo_str_other 0 5 "U1" "pan"
           (JInt 10) (JInt 1) demo_world
           [("code", JInt 0);
            ("data", JObj [("access_token", JStr "A");
                           ("refresh_token", JStr "R")])]
           [("access_token", JStr "A"); ("refresh_token", JStr "R")]
           "A" (JStr "R"));
    (reflexivity || discriminate).
Defined.

(** The presets query on a reply with code 0 and no data. *)
Lemma get_presets_out_of_format_witness :
  login_well_formed demo_vendor_terse demo_world_in = true ∧
  (get_presets demo_vendor_terse demo_str_other 0 "U1" demo_world_in).1 =
  Raise (KeyError "data").
Proof.
  split; [reflexivity|].
  destruct (get_presets_out_of_format demo_vendor_terse demo_str_other 0 "U1"
              demo_world_in eq_refl) as (_ & Hnodata & _).
  apply (Hnodata [("code", JInt 0)]); reflexivity.
Defined.

(** The status query on a reply with code 0 and no data. *)
Lemma get_camera_status_out_of_format_witness :
  login_well_formed demo_vendor_terse demo_world_in = true ∧
  (get_camera_status demo_vendor_terse demo_str_other 0 "U1" demo_world_in).1 =
  Raise (KeyError "data").
Proof.
  split; [reflexivity|].
  destruct (get_camera_status_out_of_format demo_vendor_terse demo_str_other 0
              "U1" demo_world_in eq_refl) as (_ & Hnodata & _).
  apply (Hnodata [("code", JInt 0)]); reflexivity.
Defined.


(** ** Tokens on the clock *)

Section TokensOnTheClock.

Context {codec : JwtCodec}.
Variable SECRET_KEY : string.

Lemma whole_seconds_add_hours (d n : Z) :
  whole_seconds (d + timedelta_hours n) = whole_seconds d + hours n.
Proof.
  unfold whole_seconds, timedelta_hours, hours.
  replace (d + n * 3600 * 1000000) with (d + (n * 3600) * 1000000) by lia.
  by rewrite Z.div_add.
Qed.

Lemma whole_seconds_lt (d q : Z) : whole_seconds d < q ↔ d < q * 1000000.
Proof.
  unfold whole_seconds.
  pose proof (Z.div_mod d 1000000) as Hd.
  pose proof (Z.mod_pos_bound d 1000000) as Hm. lia.
Qed.

Lemma whole_seconds_mono (d d' : Z) :
  d ≤ d' → whole_seconds d ≤ whole_seconds d'.
Proof. intros H. apply Z.div_le_mono; lia. Qed.

(** On the clock [generate_token_at] is [generate_token] at the whole
    seconds of the two readings. *)
Lemma generate_token_at_seconds (utcnow_exp utcnow_iat : Z) (user_id : string)
    (valid_tokens : gset string) :
  generate_token_at SECRET_KEY utcnow_exp utcnow_iat user_id valid_tokens =
  generate_token SECRET_KEY (whole_seconds utcnow_exp)
    (whole_seconds utcnow_iat) user_id valid_tokens.
Proof.
  unfold generate_token_at, generate_token.
  by rewrite whole_seconds_add_hours.
Qed.

(** From its issue on, an issued token is accepted exactly until the
    whole second of its expiry. *)
Lemma verify_token_at_issued (utcnow_exp utcnow_iat : Z) (user_id : string)
    (valid_tokens later : gset string) (now : Z) :
  let issued :=
    generate_token_at SECRET_KEY utcnow_exp utcnow_iat user_id valid_tokens in
  let exp := whole_seconds (utcnow_exp + timedelta_hours 24) in
  issued.2 ⊆ later →
  utcnow_iat ≤ now →
  (now < exp * 1000000 →
   verify_token_at SECRET_KEY later now issued.1 = Return true) ∧
  (exp * 1000000 ≤ now →
   verify_token_at SECRET_KEY later now issued.1 = Return false).
Proof.
  intros issued exp Hsub Hiat. subst issued exp.
  rewrite generate_token_at_seconds in *. rewrite whole_seconds_add_hours.
  unfold verify_token_at.
  pose proof (whole_seconds_mono _ _ Hiat) as Hiat'.
  pose proof (whole_seconds_lt now (whole_seconds utcnow_exp + hours 24))
    as Hlt.
  split; intros Hexp.
  - apply verify_token_true. split.
    + apply Hsub. simpl. apply elem_of_union. left. by apply elem_of_singleton.
    + apply jwt_decode_issued. split; [done | by apply Hlt].
  - destruct (verify_token_total SECRET_KEY later (whole_seconds now)
                (generate_token SECRET_KEY (whole_seconds utcnow_exp)
                   (whole_seconds utcnow_iat) user_id valid_tokens).1)
      as [[] Hb]; [|done].
    apply verify_token_true in Hb as [_ Hdec].
    apply jwt_decode_issued in Hdec as [_ Hdec]. apply Hlt in Hdec. lia.
Qed.

(** C2, as amended. [generate_token] builds a signed token that carries
    [user_id], the issue reading and the reading taken at issue plus 24
    hours, both cut to whole seconds, and adds exactly that string to
    the registry; on that registry, and on every later one,
    [verify_token] accepts the token from issuance on, at every instant
    before the expiry the token carries, which lies less than one second
    before 24 hours after the reading. *)
Theorem generate_token_valid_until_exp (utcnow_exp utcnow_iat : Z)
    (user_id : string) (valid_tokens later : gset string) (now : Z) :
  let issued :=
    generate_token_at SECRET_KEY utcnow_exp utcnow_iat user_id valid_tokens in
  let exp := whole_seconds (utcnow_exp + timedelta_hours 24) in
  let payload := Claims user_id (Some exp) (Some (whole_seconds utcnow_iat)) in
  issued.2 ⊆ later →
  utcnow_iat ≤ now →
  now < exp * 1000000 →
  jws_load issued.1 =
    Some (Jws "HS256" payload (signing_input "HS256" payload)
            (hmac_sha256 SECRET_KEY (signing_input "HS256" payload))) ∧
  issued.2 = {[ issued.1 ]} ∪ valid_tokens ∧
  verify_token_at SECRET_KEY issued.2 utcnow_iat issued.1 = Return true ∧
  verify_token_at SECRET_KEY later now issued.1 = Return true ∧
  utcnow_exp + timedelta_hours 24 - 1000000 < exp * 1000000 ∧
  exp * 1000000 ≤ utcnow_exp + timedelta_hours 24.
Proof.
  intros issued exp payload Hsub Hiat Hexp.
  split; [apply jws_load_encode|]. split; [reflexivity|].
  split; [|split].
  - apply (verify_token_at_issued utcnow_exp utcnow_iat user_id valid_tokens
             issued.2 utcnow_iat); [done | lia | fold exp; lia].
  - by apply (verify_token_at_issued utcnow_exp utcnow_iat user_id
                valid_tokens later now).
  - subst exp. unfold whole_seconds.
    pose proof (Z.div_mod (utcnow_exp + timedelta_hours 24) 1000000) as Hd.
    pose proof (Z.mod_pos_bound (utcnow_exp + timedelta_hours 24) 1000000)
      as Hm.
    lia.
Qed.

(** A header 'Bearer ' and a token without a space hands that token to
    [verify_token]. *)
Lemma bearer_header_checks_token {A R : Type} (f : A → R)
    (valid_tokens : gset string) (now : Z) (token : string) (args : A) :
  contains_space token = false →
  token_required SECRET_KEY f valid_tokens now (Some ("Bearer " +:+ token))
    args =
  match verify_token SECRET_KEY valid_tokens now token with
  | Return true => Return (Passed (f args))
  | Return false => Return (unauthorized "Invalid token")
  | Raise e => Raise e
  end.
Proof.
  intros Hsp. rewrite token_required_header by done.
  change ("Bearer " +:+ token) with ("Bearer" +:+ String " " token).
  by rewrite split_space_app, (split_space_no_space _ Hsp).
Qed.

(** Login to view: the header 'Bearer ' followed by a token that
    [generate_token] returned lets the view run from issuance until the
    expiry the token carries (the reading taken at issue plus 24 hours,
    cut to whole seconds), and gets 'Invalid token' from then on,
    provided the token itself has no space in it. *)
Theorem issued_token_opens_view {A R : Type} (f : A → R)
    (utcnow_exp utcnow_iat : Z) (user_id : string)
    (valid_tokens later : gset string) (now : Z) (args : A) :
  let issued :=
    generate_token_at SECRET_KEY utcnow_exp utcnow_iat user_id valid_tokens in
  let exp := whole_seconds (utcnow_exp + timedelta_hours 24) in
  let answer :=
    token_required_at SECRET_KEY f later now (Some ("Bearer " +:+ issued.1))
      args in
  contains_space issued.1 = false →
  issued.2 ⊆ later →
  utcnow_iat ≤ now →
  (now < exp * 1000000 → answer = Return (Passed (f args))) ∧
  (exp * 1000000 ≤ now → answer = Return (unauthorized "Invalid token")).
Proof.
  intros issued exp answer Hsp Hsub Hiat. subst answer.
  destruct (verify_token_at_issued utcnow_exp utcnow_iat user_id valid_tokens
              later now Hsub Hiat) as [Htrue Hfalse].
  fold issued exp in Htrue, Hfalse. unfold verify_token_at in *.
  unfold token_required_at. rewrite bearer_header_checks_token by done.
  split; intros Hexp; [by rewrite Htrue | by rewrite Hfalse].
Qed.

(** Every member of a registry built by [generate_token] comes out of
    one of the calls that built it. *)
Lemma issued_by_history (now : Z) (valid_tokens : gset string)
    (token : string) :
  issued_by SECRET_KEY now valid_tokens → token ∈ valid_tokens →
  ∃ utcnow_exp utcnow_iat user_id before,
    issued_by SECRET_KEY now before ∧
    utcnow_iat ≤ now ∧
    token = (generate_token SECRET_KEY utcnow_exp utcnow_iat user_id
               before).1 ∧
    (generate_token SECRET_KEY utcnow_exp utcnow_iat user_id before).2
      ⊆ valid_tokens.
Proof.
  induction 1 as [|t1 t2 uid regs Hregs IH Hle].
  - intros Hin. by apply not_elem_of_empty in Hin.
  - intros Hin. destruct (decide (token ∈ regs)) as [Hold|Hnew].
    + destruct (IH Hold) as (e & i & u & before & Hb & Hi & Htok & Hsub).
      exists e, i, u, before. repeat split; auto.
      etransitivity; [exact Hsub|]. simpl. apply union_subseteq_r.
    + exists t1, t2, uid, regs. repeat split; auto.
      simpl in *. apply elem_of_union in Hin as [Hin|Hin]; [|done].
      by apply elem_of_singleton in Hin.
Qed.

(** [verify_token] accepts nothing but what was issued. On a registry
    built by [generate_token] an accepted token is in the registry, is
    the string one of the calls that built the registry returned, and
    the instant lies between the issue and the expiry of that call. And
    on every registry a token signed with [SECRET_KEY], whatever its
    payload, is refused when the registry does not hold it. *)
Theorem verify_token_accepts_only_issued (valid_tokens : gset string)
    (now : Z) (token : string) :
  (∀ payload,
     jwt_encode payload SECRET_KEY ∉ valid_tokens →
     verify_token SECRET_KEY valid_tokens now (jwt_encode payload SECRET_KEY)
       = Return false) ∧
  (issued_by SECRET_KEY now valid_tokens →
   verify_token SECRET_KEY valid_tokens now token = Return true →
   token ∈ valid_tokens ∧
   ∃ utcnow_exp utcnow_iat user_id before,
     issued_by SECRET_KEY now before ∧
     token = (generate_token SECRET_KEY utcnow_exp utcnow_iat user_id
                before).1 ∧
     (generate_token SECRET_KEY utcnow_exp utcnow_iat user_id before).2
       ⊆ valid_tokens ∧
     utcnow_iat ≤ now ∧ now < utcnow_exp + hours 24).
Proof.
  split.
  - intros payload Hnot.
    destruct (verify_token_total SECRET_KEY valid_tokens now
                (jwt_encode payload SECRET_KEY)) as [[] Hb]; [|done].
    by apply verify_token_true in Hb as [Hin _].
  - intros Hreg [Hin Hdec]%verify_token_true. split; [done|].
    destruct (issued_by_history now valid_tokens token Hreg Hin)
      as (t1 & t2 & uid & before & Hb & Hi & -> & Hsub).
    exists t1, t2, uid, before. repeat split; auto.
    by apply jwt_decode_issued in Hdec as [_ ?].
Qed.

End TokensOnTheClock.

(** Issued at 1000.9 s and asked about at 87400.5 s, 0.4 s before 24
    hours are over, the token is refused: its expiry is 87400 s. *)
Lemma token_refused_within_24_hours :
  1000900000 ≤ 87400500000 ∧
  87400500000 < 1000900000 + timedelta_hours 24 ∧
  demo_issue_at.1 ∈ demo_issue_at.2 ∧
  verify_token_at (codec := reference_codec) demo_secret demo_issue_at.2
    87400500000 demo_issue_at.1 = Return false.
Proof.
  split; [lia|]. split; [unfold timedelta_hours; lia|].
  split; [|vm_compute; reflexivity].
  unfold demo_issue_at. simpl. apply elem_of_union. left.
  by apply elem_of_singleton.
Qed.

(** The same token one microsecond before its expiry at 87400 s. *)
Lemma generate_token_valid_until_exp_witness :
  verify_token_at (codec := reference_codec) demo_secret demo_issue_at.2
    87399999999 demo_issue_at.1 = Return true.
Proof.
  apply (generate_token_valid_until_exp (codec := reference_codec) demo_secret
           1000900000 1000900000 "860" ∅ demo_issue_at.2 87399999999).
  - reflexivity.
  - lia.
  - vm_compute. reflexivity.
Defined.

(** The token issued at 1000.9 s behind 'Bearer ': the view runs one
    microsecond before 87400 s and is refused at 87400.5 s. *)
Lemma issued_token_opens_view_witness :
  token_required_at (codec := reference_codec) demo_secret demo_view
    demo_issue_at.2 87399999999 (Some ("Bearer " +:+ demo_issue_at.1))
    "status" = Return (Passed (demo_view "status")) ∧
  token_required_at (codec := reference_codec) demo_secret demo_view
    demo_issue_at.2 87400500000 (Some ("Bearer " +:+ demo_issue_at.1))
    "status" = Return (unauthorized "Invalid token").
Proof.
  split.
  - apply (issued_token_opens_view (codec := reference_codec) demo_secret
             demo_view 1000900000 1000900000 "860" ∅ demo_issue_at.2
             87399999999 "status");
      [vm_compute; reflexivity | reflexivity | lia | vm_compute; reflexivity].
  - apply (issued_token_opens_view (codec := reference_codec) demo_secret
             demo_view 1000900000 1000900000 "860" ∅ demo_issue_at.2
             87400500000 "status");
      [vm_compute; reflexivity | reflexivity | lia
      | vm_compute; intros H; discriminate H].
Defined.

(** The issued token of the concrete run comes out of a call that built
    the registry, and a token signed with the same key for another
    expiry is refused. *)
Lemma verify_token_accepts_only_issued_witness :
  (demo_token ∈ demo_registry ∧
   ∃ utcnow_exp utcnow_iat user_id before,
     issued_by (codec := reference_codec) demo_secret 1010 before ∧
     demo_token = (generate_token (codec := reference_codec) demo_secret
                     utcnow_exp utcnow_iat user_id before).1 ∧
     (generate_token (codec := reference_codec) demo_secret utcnow_exp
        utcnow_iat user_id before).2 ⊆ demo_registry ∧
     utcnow_iat ≤ 1010 ∧ 1010 < utcnow_exp + hours 24) ∧
  verify_token (codec := reference_codec) demo_secret demo_registry 1010
    (jwt_encode (codec := reference_codec)
       (Claims "860" (Some 999999) (Some 1000)) demo_secret) = Return false.
Proof.
  destruct (verify_token_accepts_only_issued (codec := reference_codec)
              demo_secret demo_registry 1010 demo_token) as [Hforged Hissued].
  split.
  - apply Hissued; [|vm_compute; reflexivity].
    unfold demo_registry, demo_issue.
    apply issued_more; [apply issued_nothing | lia].
  - destruct (verify_token_accepts_only_issued (codec := reference_codec)
                demo_secret demo_registry 1010 "") as [Hrefused _].
    apply Hrefused. vm_compute. intros H. discriminate H.
Defined.
